(** * Verification of [compute_index] (src/indices.py)

    The vulnerability index of the pipeline is computed by one function,
    [compute_index]: select the numeric columns of a data frame, fill the
    missing cells with 0, standardise every column, reduce to one
    dimension (directly for one column, by a one-component PCA
    otherwise) and rescale the scores to [0,1].

    Numbers are modelled as exact reals: float64 rounding, infinities and
    overflow are outside the model.  A missing cell (NaN) is [None].
    Where rounding decides a statement, the standardisation of one
    column is replayed in binary64 ([Binary64]).
    Python exceptions are explicit: every operation that can raise
    returns a [result]. *)

From Stdlib Require Import Reals String List ZArith Lra Lia Psatz.
From Stdlib Require Floats.PrimFloat.
Import ListNotations.

Open Scope R_scope.

(** ** Exceptions *)

Inductive exn : Type :=
| KeyError
| ValueError.

Inductive result (A : Type) : Type :=
| Ok (a : A)
| Raise (e : exn).

Arguments Ok {A} a.
Arguments Raise {A} e.

Definition bind {A B : Type} (m : result A) (k : A -> result B) : result B :=
  match m with
  | Ok a => k a
  | Raise e => Raise e
  end.

Notation "x <- m ;; k" := (bind m (fun x => k))
  (at level 61, m at next level, right associativity).

Fixpoint mapM {A B : Type} (f : A -> result B) (l : list A) : result (list B) :=
  match l with
  | [] => Ok []
  | a :: l' => b <- f a ;; bs <- mapM f l' ;; Ok (b :: bs)
  end.

(** ** The part of pandas that [compute_index] uses *)

Module Pandas.

(** A column is of a numeric dtype (its cells are numbers or NaN) or of
    dtype object; the cells of an object column stand for text that
    [float()] rejects. *)
Inductive column : Type :=
| Numeric (cells : list (option R))
| Object (cells : list string).

Definition column_length (c : column) : nat :=
  match c with
  | Numeric cells => length cells
  | Object cells => length cells
  end.

Definition is_number (c : column) : bool :=
  match c with
  | Numeric _ => true
  | Object _ => false
  end.

(** [index] holds the row labels, [columns] the named columns in
    order. *)
Record DataFrame : Type := mkDataFrame {
  index : list Z;
  columns : list (string * column)
}.

(** Every column has one cell per row label and column names are
    unique. *)
Definition well_formed (df : DataFrame) : Prop :=
  Forall (fun nc => column_length (snd nc) = length (index df)) (columns df)
  /\ NoDup (map fst (columns df)).

Record Series : Type := mkSeries {
  values : list R;
  series_index : list Z
}.

(** [pd.Series(v, index=idx)] with a scalar [v]. *)
Definition Series_scalar (v : R) (idx : list Z) : Series :=
  mkSeries (repeat v (length idx)) idx.

(** [pd.Series(arr, index=idx)] with an array: pandas raises when the
    lengths differ. *)
Definition Series_array (arr : list R) (idx : list Z) : result Series :=
  if Nat.eqb (length arr) (length idx) then Ok (mkSeries arr idx)
  else Raise ValueError.

(** [df.select_dtypes(include=["number"]).columns.tolist()] *)
Definition select_dtypes_number (df : DataFrame) : list string :=
  map fst (filter (fun nc => is_number (snd nc)) (columns df)).

Fixpoint lookup (name : string) (cols : list (string * column)) : option column :=
  match cols with
  | [] => None
  | (n, c) :: cols' => if String.eqb name n then Some c else lookup name cols'
  end.

(** [df[features]]: the named columns, in the order of [features]. *)
Definition getitem (df : DataFrame) (features : list string) : result (list column) :=
  mapM (fun name =>
          match lookup name (columns df) with
          | Some c => Ok c
          | None => Raise KeyError
          end) features.

(** [.fillna(v)]: NaN cells of the numeric columns become [v]. *)
Definition fillna (v : R) (c : column) : column :=
  match c with
  | Numeric cells =>
      Numeric (map (fun x => match x with Some r => Some r | None => Some v end) cells)
  | Object cells => Object cells
  end.

End Pandas.

(** ** The part of numpy that [compute_index] uses *)

Module Numpy.

Definition sum (v : list R) : R := fold_right Rplus 0 v.

Definition mean (v : list R) : R := sum v / INR (length v).

(** [arr.max()] and [arr.min()] raise on an empty array. *)
Definition amax (v : list R) : result R :=
  match v with
  | [] => Raise ValueError
  | x :: v' => Ok (fold_right Rmax x v')
  end.

Definition amin (v : list R) : result R :=
  match v with
  | [] => Raise ValueError
  | x :: v' => Ok (fold_right Rmin x v')
  end.

Definition dot (u v : list R) : R :=
  sum (map (fun ab => fst ab * snd ab) (combine u v)).

(** [np.sign] *)
Definition sign (x : R) : R :=
  if Rlt_dec 0 x then 1 else if Rlt_dec x 0 then -1 else 0.

(** [np.argmax(np.abs(v))]: the first position of the largest
    magnitude. *)
Fixpoint argmax_abs (v : list R) : nat :=
  match v with
  | [] => O
  | x :: v' =>
      match v' with
      | [] => O
      | _ :: _ =>
          let k := argmax_abs v' in
          if Rlt_dec (Rabs x) (Rabs (nth k v' 0)) then S k else O
      end
  end.

End Numpy.

(** ** The part of scikit-learn that [compute_index] uses

    A matrix is the list of its columns; every column has [n_samples]
    entries. *)

Module Sklearn.
Import Pandas Numpy.

Definition matrix : Type := list (list R).

Definition n_samples (X : matrix) : nat :=
  match X with
  | [] => O
  | c :: _ => length c
  end.

(** Conversion of a column to float64.  A NaN cell has no real value;
    after [fillna(0)] none is left. *)
Definition as_float (c : column) : result (list R) :=
  match c with
  | Numeric cells =>
      mapM (fun x => match x with Some r => Ok r | None => Raise ValueError end) cells
  | Object _ => Raise ValueError
  end.

(** [check_array]: the input is converted to float64 and must have at
    least one feature and at least one sample. *)
Definition check_array (X : list column) : result matrix :=
  M <- mapM as_float X ;;
  if Nat.eqb (length M) 0 then Raise ValueError
  else if Nat.eqb (n_samples M) 0 then Raise ValueError
  else Ok M.

(** Population variance (ddof = 0), as [StandardScaler] computes it. *)
Definition var (c : list R) : R :=
  sum (map (fun x => (x - mean c) * (x - mean c)) c) / INR (length c).

(** [_handle_zeros_in_scale]: a zero scale is replaced by 1.
    scikit-learn detects the zero with a rounding tolerance; in exact
    arithmetic the test is an equality. *)
Definition handle_zeros_in_scale (s : R) : R :=
  if Req_dec_T s 0 then 1 else s.

Definition scale_ (c : list R) : R := handle_zeros_in_scale (sqrt (var c)).

Definition standardize (c : list R) : list R :=
  map (fun x => (x - mean c) / scale_ c) c.

(** [StandardScaler().fit_transform(X)] *)
Definition StandardScaler_fit_transform (X : list column) : result matrix :=
  M <- check_array X ;;
  Ok (map standardize M).

(** [svd_flip(U, Vt, u_based_decision=False)]: the component is
    oriented so that its entry of largest magnitude is positive. *)
Definition svd_flip (v : list R) : list R :=
  let s := sign (nth (argmax_abs v) v 0) in
  map (fun a => s * a) v.

Definition center (X : matrix) : matrix :=
  map (fun c => map (fun x => x - mean c) c) X.

Definition row (X : matrix) (i : nat) : list R :=
  map (fun c => nth i c 0) X.

Section PCA.

(** The decomposition itself is LAPACK's: [svd_axis Xc] stands for
    the first right singular vector it returns for the centred
    matrix [Xc], before the sign is fixed. *)
Variable svd_axis : matrix -> list R.

(** [PCA(n_components=1).fit_transform(X).ravel()]: the centred rows
    projected on the first component. *)
Definition PCA_fit_transform (X : matrix) : list R :=
  let Xc := center X in
  let component := svd_flip (svd_axis Xc) in
  map (fun i => dot (row Xc i) component) (seq 0 (n_samples X)).

End PCA.

(** What the decomposition guarantees of the vector it returns: one
    entry per feature, unit length, and no unit vector gives the
    projected rows a larger sum of squares. *)
Definition projected_energy (Xc : matrix) (w : list R) : R :=
  sum (map (fun i => dot (row Xc i) w * dot (row Xc i) w) (seq 0 (n_samples Xc))).

Definition first_principal_axis (Xc : matrix) (v : list R) : Prop :=
  length v = length Xc
  /\ dot v v = 1
  /\ forall w, length w = length Xc -> dot w w = 1 ->
               projected_energy Xc w <= projected_energy Xc v.

End Sklearn.

(** ** The standardisation of one column, in binary64

    The operations of [StandardScaler] on one column, each rounded as
    float64 rounds it: the mean and the variance of
    [_incremental_mean_and_var] on its first call, the test of
    [_is_constant_feature] and the scale of [_handle_zeros_in_scale].
    The entries are added in order, as numpy adds a column of fewer than
    8 rows. *)

Module Binary64.
Import PrimFloat.

Definition zero : float := 0%float.
Definition one : float := 1%float.



(** [np.finfo(np.float64).eps] *)
Definition eps : float := 0x1p-52%float.

(** The number of rows as a float64 (exact below 2^53). *)
Fixpoint float_of_nat (n : nat) : float :=
  match n with
  | O => zero
  | S n' => (float_of_nat n' + one)%float
  end.

(** [np.sum(X, axis=0)] *)
Definition fsum (col : list float) : float :=
  match col with
  | [] => zero
  | x :: col' => fold_left add col' x
  end.

(** [updated_mean = (last_sum + new_sum) / updated_sample_count], with
    [last_sum = 0.0] on the first call. *)
Definition mean_ (col : list float) : float :=
  ((zero + fsum col) / float_of_nat (length col))%float.

(** The corrected two-pass variance. *)
Definition var_ (col : list float) : float :=
  let n := float_of_nat (length col) in
  let T := (fsum col / n)%float in
  let temp := map (fun x => (x - T)%float) col in
  let correction := fsum temp in
  let unnormalized :=
    (fsum (map (fun t => (t * t)%float) temp) - correction * correction / n)%float in
  (unnormalized / n)%float.

(** [var <= n_samples * eps * var + (n_samples * mean * eps) ** 2] *)
Definition is_constant_feature (col : list float) : bool :=
  let n := float_of_nat (length col) in
  let upper_bound :=
    (n * eps * var_ col + (n * mean_ col * eps) * (n * mean_ col * eps))%float in
  leb (var_ col) upper_bound.

(** The scale of a constant feature is set to 1. *)
Definition scale_ (col : list float) : float :=
  if is_constant_feature col then one else sqrt (var_ col).

(** [X -= mean_; X /= scale_], for one entry. *)
Definition standardize_cell (col : list float) (x : float) : float :=
  ((x - mean_ col) / scale_ col)%float.

Definition standardize (col : list float) : list float :=
  map (standardize_cell col) col.

End Binary64.

(** ** src/indices.py *)

Module Indices.
Import Pandas Numpy Sklearn.

Section ComputeIndex.

Variable svd_axis : matrix -> list R.

(** Lines 20-22: the default feature set is the numeric columns. *)
Definition resolve_features (df : DataFrame) (features : option (list string))
  : list string :=
  match features with
  | None => select_dtypes_number df
  | Some fs => fs
  end.

(** Lines 28-37: the score vector before it is rescaled. *)
Definition score_vector (df : DataFrame) (features : list string)
  : result (list R) :=
  X0 <- getitem df features ;;
  let X := map (fillna 0) X0 in
  Xs <- StandardScaler_fit_transform X ;;
  if Nat.eqb (length Xs) 1 then Ok (concat Xs)
  else Ok (PCA_fit_transform svd_axis Xs).

(** Line 42: [(score - score.min()) / (score.max() - score.min())]. *)
Definition rescale (mn mx : R) (score : list R) : list R :=
  map (fun s => (s - mn) / (mx - mn)) score.

(** Lines 39-42: min-max rescaling, with the guard for a constant
    score. *)
Definition normalize (score : list R) (idx : list Z) : result Series :=
  mx <- amax score ;;
  mn <- amin score ;;
  if Req_dec_T mx mn then Ok (Series_scalar 0 idx)
  else Series_array (rescale mn mx score) idx.

Definition compute_index (df : DataFrame) (features : option (list string))
  : result Series :=
  let features := resolve_features df features in
  if Nat.eqb (length features) 0 then Ok (Series_scalar 0 (index df))
  else
    score <- score_vector df features ;;
    normalize score (index df).

End ComputeIndex.

End Indices.

(** ** Vocabulary of the statements *)

Import Pandas Numpy Sklearn Indices.

(** The cells of a numeric column after [fillna(0)]. *)
Definition filled (cells : list (option R)) : list R :=
  map (fun x => match x with Some r => r | None => 0 end) cells.

(** [selects df features cellss]: every name of [features] is a numeric
    column of [df], and [cellss] lists their cells. *)
Definition selects (df : DataFrame) (features : list string)
  (cellss : list (list (option R))) : Prop :=
  Forall2 (fun f cells => lookup f (columns df) = Some (Numeric cells)) features cellss.

(** The cells of the numeric columns, in column order. *)
Definition numeric_cells (cols : list (string * column)) : list (list (option R)) :=
  flat_map (fun nc => match snd nc with Numeric cells => [cells] | Object _ => [] end) cols.

(** The score vector of a table with at least one row whose selected
    features are numeric columns. *)
Definition scores_of (svd_axis : matrix -> list R) (cellss : list (list (option R))) : list R :=
  let Xs := map standardize (map filled cellss) in
  if Nat.eqb (length Xs) 1 then concat Xs else PCA_fit_transform svd_axis Xs.

(** A column all of whose entries are one value: zero variance. *)
Definition constant_column (c : list R) : Prop :=
  exists a, forall x, In x c -> x = a.

(** Two score vectors rank the rows alike. *)
Definition same_rank (u v : list R) : Prop :=
  length u = length v
  /\ forall i j, (i < length u)%nat -> (j < length u)%nat ->
       (nth i u 0 < nth j u 0 <-> nth i v 0 < nth j v 0).

(** Scenario A of the specification: one feature column [10, 20, 30]. *)
Definition scenario_A : DataFrame :=
  mkDataFrame [0; 1; 2]%Z
    [("populacao"%string, Numeric [Some 10; Some 20; Some 30])].

(** A table without rows that still has a numeric column. *)
Definition empty_table : DataFrame :=
  mkDataFrame [] [("populacao"%string, Numeric [])].

(** Scenario D of the specification: a constant column next to a varying
    one. *)
Definition scenario_D : DataFrame :=
  mkDataFrame [0; 1]%Z
    [("regiao"%string, Numeric [Some 5; Some 5]);
     ("populacao"%string, Numeric [Some 1; Some 3])].

(** Scenario B of the specification: one feature column [5, 5, 5]. *)
Definition scenario_B : DataFrame :=
  mkDataFrame [0; 1; 2]%Z
    [("populacao"%string, Numeric [Some 5; Some 5; Some 5])].

(** Scenario C of the specification: three rows and no numeric column. *)
Definition scenario_C : DataFrame :=
  mkDataFrame [0; 1; 2]%Z
    [("municipio"%string, Object ["Acrelandia"%string; "Brasileia"%string; "Bujari"%string])].

(** A decomposition that always answers with the second coordinate axis,
    pointing backwards. *)
Definition axis_backwards (Xc : matrix) : list R := [0; -1].

(** ** src/preprocess.py *)

Module Preprocess.
Import Pandas.

(** [df.rename(columns=mapper)]: a label that is a key of [mapper] is
    replaced, any other label is kept. *)
Fixpoint rename_label (mapper : list (string * string)) (label : string) : string :=
  match mapper with
  | [] => label
  | (old, new) :: mapper' =>
      if String.eqb label old then new else rename_label mapper' label
  end.

Definition rename (mapper : list (string * string)) (df : DataFrame) : DataFrame :=
  mkDataFrame (index df)
    (map (fun nc => (rename_label mapper (fst nc), snd nc)) (columns df)).

(** Line 19 of [normalize_ibge_municipios], between [read_json] and
    [to_parquet]. *)
Definition normalize_ibge_municipios (df : DataFrame) : DataFrame :=
  rename [("nome"%string, "municipio"%string); ("id"%string, "municipio_id"%string)] df.

End Preprocess.

(** ** src/indices.py, [main] *)

Module IndicesMain.
Import Pandas Sklearn Indices.

(** [df[name] = column]: an existing column of that name is replaced
    where it stands, a new one is appended. *)
Fixpoint set_column (name : string) (c : column) (cols : list (string * column))
  : list (string * column) :=
  match cols with
  | [] => [(name, c)]
  | (n, c0) :: cols' =>
      if String.eqb name n then (name, c) :: cols'
      else (n, c0) :: set_column name c cols'
  end.

(** Lines 50-52 of [main], between [read_parquet] and [to_csv]: the
    series returned by [compute_index] carries the index of [df], so the
    assignment is positional. *)
Definition main (svd_axis : matrix -> list R) (df : DataFrame) : result DataFrame :=
  s <- compute_index svd_axis df None ;;
  Ok (mkDataFrame (index df)
        (set_column "vuln_overall" (Numeric (map Some (values s))) (columns df))).

End IndicesMain.

(** ** src/extract.py *)

Module Extract.

(** int64 arithmetic of numpy wraps around. *)
Definition wrap64 (z : Z) : Z := ((z + 2 ^ 63) mod 2 ^ 64 - 2 ^ 63)%Z.

(** Line 272 of [create_population_seed_from_parquet], for one cell of an
    int64 column [municipio_id]:
    [(seed["municipio_id"] % 100000) * 10 + 1000]. *)
Definition seed_population (municipio_id : Z) : Z :=
  wrap64 (wrap64 (wrap64 (municipio_id mod 100000) * 10) + 1000).

Definition seed_column (ids : list Z) : list Z := map seed_population ids.

(** A SIDRA answer is a JSON array whose entries are objects or arrays;
    member values and array elements are taken to be strings. *)
Inductive item : Type :=
| Obj (members : list (string * string))
| Arr (elems : list string).

Inductive payload : Type :=
| NotAList
| Items (data : list item).

(** Iterating an object yields its keys, iterating an array its
    elements. *)
Definition iter (x : item) : list string :=
  match x with
  | Obj members => map fst members
  | Arr elems => elems
  end.

(** A Python [dict] with string keys, in insertion order. *)
Definition dict : Type := list (string * string).

Fixpoint dict_get (k : string) (d : dict) : option string :=
  match d with
  | [] => None
  | (k0, v0) :: d' => if String.eqb k k0 then Some v0 else dict_get k d'
  end.

(** [d[k] = v] *)
Fixpoint dict_set (k v : string) (d : dict) : dict :=
  match d with
  | [] => [(k, v)]
  | (k0, v0) :: d' =>
      if String.eqb k k0 then (k0, v) :: d' else (k0, v0) :: dict_set k v d'
  end.

(** [dict(pairs)] *)
Definition dict_of_pairs (pairs : list (string * string)) : dict :=
  fold_left (fun d kv => dict_set (fst kv) (snd kv) d) pairs [].

(** [dict(zip(header, row))] *)
Definition record (header row : item) : dict :=
  dict_of_pairs (combine (iter header) (iter row)).

(** Lines 89-94 of [fetch_sidra_population]: the check of the format and
    the list of records. *)
Definition sidra_records (data : payload) : result (list dict) :=
  match data with
  | NotAList => Raise ValueError
  | Items l =>
      if Nat.ltb (length l) 2 then Raise ValueError
      else match l with
           | [] => Raise ValueError
           | header :: rows => Ok (map (record header) rows)
           end
  end.

(** What [session.get], [raise_for_status] and [resp.json()] give for one
    request: an exception or the decoded payload. *)
Inductive response : Type :=
| Exception
| Json (data : payload).

Inductive search_error : Type :=
| RuntimeError.

Section Discover.

(** The answer of the network to the [k]-th request, for table [t]. *)
Variable get : nat -> Z -> response.

(** Whether [df.to_csv(out)] of the [k]-th turn succeeds; a write that
    fails raises inside the [try]. *)
Variable to_csv : nat -> Z -> list dict -> bool.

Variable min_rows : Z.

(** One turn of the loop of [discover_and_fetch_sidra_population]
    (lines 111-132): the records saved, or nothing when the loop goes on
    to the next candidate. *)
Definition try_table (k : nat) (t : Z) : option (list dict) :=
  match get k t with
  | Exception => None
  | Json NotAList => None
  | Json (Items l) =>
      if Nat.ltb (length l) 2 then None
      else match l with
           | [] => None
           | header :: rows =>
               if Z.geb (Z.of_nat (length rows)) min_rows
               then
                 let records := map (record header) rows in
                 if to_csv k t records then Some records else None
               else None
           end
  end.

Fixpoint discover_from (k : nat) (candidates : list Z)
  : search_error + (Z * list dict) :=
  match candidates with
  | [] => inl RuntimeError
  | t :: candidates' =>
      match try_table k t with
      | Some records => inr (t, records)
      | None => discover_from (S k) candidates'
      end
  end.

(** [discover_and_fetch_sidra_population(candidates, min_rows)]: the
    table found and the records written to its CSV. *)
Definition discover_and_fetch_sidra_population (candidates : list Z)
  : search_error + (Z * list dict) :=
  discover_from 0 candidates.

End Discover.

End Extract.

(** ** scripts/normalize_sidra_6579.py, the choice of the columns *)

Module NormalizeSidra.

(** [max(l, key=key)]: the first element whose key is largest; raises
    ValueError on an empty list. *)
Fixpoint max_from {K : Type} (ltb : K -> K -> bool) (key : string -> K)
  (best : string) (l : list string) : string :=
  match l with
  | [] => best
  | c :: l' => max_from ltb key (if ltb (key best) (key c) then c else best) l'
  end.

Definition py_max {K : Type} (ltb : K -> K -> bool) (key : string -> K)
  (l : list string) : result string :=
  match l with
  | [] => Raise ValueError
  | c :: l' => Ok (max_from ltb key c l')
  end.

Definition Rltb (a b : R) : bool := if Rlt_dec a b then true else false.

Section Columns.

(** The statistics of lines 72-85, per column: whether the test of
    line 90 holds, [int_count], [float_count] and the float
    [distinct * (avg_len + 1)]. *)
Variable code_like : string -> bool.
Variable int_count : string -> nat.
Variable float_count : string -> nat.
Variable textual_score : string -> R.

(** Lines 88-95 *)
Definition choose_code_col (cols : list string) : result string :=
  match find code_like cols with
  | Some c => Ok c
  | None => py_max Nat.ltb int_count cols
  end.

(** Lines 87-118: the three columns kept, [None] when the selection
    fails and [normalize] returns False. *)
Definition choose_columns (cols : list string)
  : result (option (string * string * string)) :=
  code_col <- choose_code_col cols ;;
  let val_candidates := filter (fun c => negb (String.eqb c code_col)) cols in
  value_col <- py_max Nat.ltb float_count val_candidates ;;
  let name_candidates :=
    filter (fun c => negb (String.eqb c code_col || String.eqb c value_col)) cols in
  match name_candidates with
  | [] => Ok None
  | _ :: _ =>
      name_col <- py_max Rltb textual_score name_candidates ;;
      Ok (Some (code_col, name_col, value_col))
  end.

End Columns.

End NormalizeSidra.

(** ** Further vocabulary *)

Import Pandas Numpy Sklearn Indices.

Definition drop_object_columns (df : DataFrame) : DataFrame :=
  mkDataFrame (index df) (filter (fun nc => is_number (snd nc)) (columns df)).

(** A decomposition that returns the opposite of what [svd_axis]
    returns. *)
Definition opposite_axis (svd_axis : matrix -> list R) (Xc : matrix) : list R :=
  map Ropp (svd_axis Xc).

(** The answer to request [k] for table [t] is a list with a header and
    at least one and at least [min_rows] rows, and the CSV of the
    [records] built from it is written. *)
Definition qualifies (get : nat -> Z -> Extract.response)
  (to_csv : nat -> Z -> list Extract.dict -> bool) (min_rows : Z)
  (k : nat) (t : Z) (records : list Extract.dict) : Prop :=
  exists header rows,
    get k t = Extract.Json (Extract.Items (header :: rows))
    /\ rows <> []
    /\ (min_rows <= Z.of_nat (length rows))%Z
    /\ records = map (Extract.record header) rows
    /\ to_csv k t records = true.

(** Municipalities as the IBGE service lists them: an identifier and a
    name. *)
Definition scenario_ibge : DataFrame :=
  mkDataFrame [0; 1; 2]%Z
    [("id"%string, Numeric [Some 1200013; Some 1200054; Some 1200104]);
     ("nome"%string,
      Object ["Acrelandia"%string; "Assis Brasil"%string; "Brasileia"%string])].

(** The cells of [c2] are those of [c1] in other units: every recorded
    value [t] became [a * t + b] and a missing cell stayed missing.  A
    shift is allowed only when no cell is missing, since a missing cell
    is filled with 0 in either unit. *)
Definition changed_units (a b : R) (c1 c2 : list (option R)) : Prop :=
  c2 = map (option_map (fun t => a * t + b)) c1
  /\ (b = 0 \/ Forall (fun x => x <> None) c1).

(** Two score vectors rank the rows in opposite orders. *)
Definition reverse_rank (u v : list R) : Prop :=
  length u = length v
  /\ forall i j, (i < length u)%nat -> (j < length u)%nat ->
       (nth i u 0 < nth j u 0 <-> nth j v 0 < nth i v 0).

(** A population column with a missing cell, the same column counted in
    thousandths, and the same column with the sign reversed. *)
Definition scenario_gap : DataFrame :=
  mkDataFrame [0; 1; 2]%Z
    [("populacao"%string, Numeric [Some 10; None; Some 30])].

Definition scenario_gap_scaled : DataFrame :=
  mkDataFrame [0; 1; 2]%Z
    [("populacao"%string, Numeric [Some 10000; None; Some 30000])].

Definition scenario_gap_negated : DataFrame :=
  mkDataFrame [0; 1; 2]%Z
    [("populacao"%string, Numeric [Some (-10); None; Some (-30)])].

(** * Properties *)

(** ** Sums, means, maxima and minima *)

Lemma sum_repeat (a : R) (n : nat) : sum (repeat a n) = INR n * a.
Proof.
  induction n as [|n IH].
  - simpl. lra.
  - rewrite S_INR. simpl repeat. unfold sum in *. simpl. rewrite IH. lra.
Qed.

Lemma sum_map_plus {A : Type} (f g : A -> R) (l : list A) :
  sum (map (fun x => f x + g x) l) = sum (map f l) + sum (map g l).
Proof.
  unfold sum. induction l as [|a l IH]; simpl; [lra | rewrite IH; lra].
Qed.

Lemma sum_map_scal {A : Type} (k : R) (f : A -> R) (l : list A) :
  sum (map (fun x => k * f x) l) = k * sum (map f l).
Proof.
  unfold sum. induction l as [|a l IH]; simpl; [lra | rewrite IH; lra].
Qed.

Lemma sum_map_const {A : Type} (k : R) (l : list A) :
  sum (map (fun _ => k) l) = INR (length l) * k.
Proof.
  induction l as [|a l IH].
  - unfold sum. simpl. lra.
  - change (length (a :: l)) with (S (length l)). rewrite S_INR.
    unfold sum in *. simpl. rewrite IH. lra.
Qed.

Lemma sum_map_ext {A : Type} (f g : A -> R) (l : list A) :
  (forall x, In x l -> f x = g x) -> sum (map f l) = sum (map g l).
Proof.
  intros H. f_equal. apply map_ext_in. exact H.
Qed.

Lemma sum_squares_nonneg {A : Type} (f : A -> R) (l : list A) :
  0 <= sum (map (fun x => f x * f x) l).
Proof.
  unfold sum. induction l as [|a l IH]; simpl; [lra | nra].
Qed.

Lemma sum_squares_pos {A : Type} (f : A -> R) (l : list A) (a : A) :
  In a l -> f a <> 0 -> 0 < sum (map (fun x => f x * f x) l).
Proof.
  unfold sum. induction l as [|b l IH]; simpl; [tauto|].
  intros [->|Hin] Hne.
  - pose proof (sum_squares_nonneg f l) as Hl. unfold sum in Hl. nra.
  - specialize (IH Hin Hne). nra.
Qed.

Lemma sum_squares_zero {A : Type} (f : A -> R) (l : list A) :
  sum (map (fun x => f x * f x) l) = 0 -> forall a, In a l -> f a = 0.
Proof.
  intros H a Hin. destruct (Req_dec_T (f a) 0) as [E|E]; [exact E|].
  pose proof (sum_squares_pos f l a Hin E). lra.
Qed.

Lemma INR_length_pos {A : Type} (l : list A) : l <> [] -> 0 < INR (length l).
Proof.
  destruct l as [|a l]; [congruence|]. intros _.
  change (length (a :: l)) with (S (length l)). apply lt_0_INR. lia.
Qed.

(** The deviations from the mean add up to zero. *)
Lemma sum_deviations (c : list R) :
  c <> [] -> sum (map (fun x => x - mean c) c) = 0.
Proof.
  intros Hc. pose proof (INR_length_pos c Hc) as Hn.
  replace (map (fun x => x - mean c) c)
    with (map (fun x => (fun y => y) x + (fun _ => - mean c) x) c)
    by (apply map_ext; intros; lra).
  rewrite sum_map_plus, sum_map_const, map_id.
  unfold mean. field. lra.
Qed.

Lemma fold_max_ge (x : R) (l : list R) :
  forall y, In y (x :: l) -> y <= fold_right Rmax x l.
Proof.
  induction l as [|a l IH]; simpl.
  - intros y [E|[]]. lra.
  - intros y [E|[E|Hin]].
    + pose proof (IH y (or_introl E)). pose proof (Rmax_r a (fold_right Rmax x l)). lra.
    + rewrite <- E. apply Rmax_l.
    + pose proof (IH y (or_intror Hin)). pose proof (Rmax_r a (fold_right Rmax x l)). lra.
Qed.

Lemma fold_min_le (x : R) (l : list R) :
  forall y, In y (x :: l) -> fold_right Rmin x l <= y.
Proof.
  induction l as [|a l IH]; simpl.
  - intros y [E|[]]. lra.
  - intros y [E|[E|Hin]].
    + pose proof (IH y (or_introl E)). pose proof (Rmin_r a (fold_right Rmin x l)). lra.
    + rewrite <- E. apply Rmin_l.
    + pose proof (IH y (or_intror Hin)). pose proof (Rmin_r a (fold_right Rmin x l)). lra.
Qed.

Lemma fold_max_in (x : R) (l : list R) : In (fold_right Rmax x l) (x :: l).
Proof.
  induction l as [|a l IH]; simpl; [auto|].
  destruct (Rle_dec a (fold_right Rmax x l)) as [Hle|Hgt].
  - rewrite (Rmax_right _ _ Hle).
    destruct IH as [E|Hin]; [left; exact E | right; right; exact Hin].
  - rewrite Rmax_left by lra. right; left; reflexivity.
Qed.

Lemma fold_min_in (x : R) (l : list R) : In (fold_right Rmin x l) (x :: l).
Proof.
  induction l as [|a l IH]; simpl; [auto|].
  destruct (Rle_dec a (fold_right Rmin x l)) as [Hle|Hgt].
  - rewrite (Rmin_left _ _ Hle). right; left; reflexivity.
  - rewrite Rmin_right by lra.
    destruct IH as [E|Hin]; [left; exact E | right; right; exact Hin].
Qed.

Lemma amax_spec (v : list R) (mx : R) :
  amax v = Ok mx -> In mx v /\ forall y, In y v -> y <= mx.
Proof.
  destruct v as [|x l]; simpl; [discriminate|].
  intros H. injection H as <-. split; [apply fold_max_in | apply fold_max_ge].
Qed.

Lemma amin_spec (v : list R) (mn : R) :
  amin v = Ok mn -> In mn v /\ forall y, In y v -> mn <= y.
Proof.
  destruct v as [|x l]; simpl; [discriminate|].
  intros H. injection H as <-. split; [apply fold_min_in | apply fold_min_le].
Qed.

(** [amax] and [amin] are determined by their specification. *)
Lemma amax_intro (v : list R) (mx : R) :
  In mx v -> (forall y, In y v -> y <= mx) -> amax v = Ok mx.
Proof.
  intros Hin Hub. destruct v as [|x l]; [destruct Hin|].
  simpl. f_equal. apply Rle_antisym.
  - apply Hub, fold_max_in.
  - apply fold_max_ge, Hin.
Qed.

Lemma amin_intro (v : list R) (mn : R) :
  In mn v -> (forall y, In y v -> mn <= y) -> amin v = Ok mn.
Proof.
  intros Hin Hlb. destruct v as [|x l]; [destruct Hin|].
  simpl. f_equal. apply Rle_antisym.
  - apply fold_min_le, Hin.
  - apply Hlb, fold_min_in.
Qed.

Lemma amax_nonempty (v : list R) : v <> [] -> exists mx, amax v = Ok mx.
Proof. destruct v; [congruence|]. intros _. simpl. eauto. Qed.

Lemma amin_nonempty (v : list R) : v <> [] -> exists mn, amin v = Ok mn.
Proof. destruct v; [congruence|]. intros _. simpl. eauto. Qed.

(** ** The rescaling step *)

Lemma rescale_length (mn mx : R) (v : list R) : length (rescale mn mx v) = length v.
Proof. unfold rescale. apply length_map. Qed.

Lemma rescale_unit (v : list R) : rescale 0 1 v = v.
Proof.
  unfold rescale. rewrite <- (map_id v) at 2. apply map_ext. intros s. field.
Qed.

Lemma rescale_monotone (mn mx a b : R) :
  mn < mx -> a <= b -> (a - mn) / (mx - mn) <= (b - mn) / (mx - mn).
Proof.
  intros Hlt Hab. unfold Rdiv. apply Rmult_le_compat_r; [|lra].
  apply Rlt_le, Rinv_0_lt_compat. lra.
Qed.

Lemma rescale_strict (mn mx a b : R) :
  mn < mx -> a < b -> (a - mn) / (mx - mn) < (b - mn) / (mx - mn).
Proof.
  intros Hlt Hab. unfold Rdiv. apply Rmult_lt_compat_r; [|lra].
  apply Rinv_0_lt_compat. lra.
Qed.

Lemma amax_amin_order (v : list R) (mn mx : R) :
  amax v = Ok mx -> amin v = Ok mn -> mn <= mx.
Proof.
  intros Hmx Hmn. apply amax_spec in Hmx as [Hin _].
  apply amin_spec in Hmn as [_ Hlb]. apply Hlb, Hin.
Qed.

(** After rescaling, the largest score is 1 and the smallest is 0. *)
Lemma amax_rescale (v : list R) (mn mx : R) :
  amax v = Ok mx -> amin v = Ok mn -> mn < mx ->
  amax (rescale mn mx v) = Ok 1.
Proof.
  intros Hmx Hmn Hlt. apply amax_spec in Hmx as [Hin Hub].
  apply amax_intro.
  - unfold rescale. apply in_map_iff. exists mx. split; [field; lra | exact Hin].
  - intros y Hy. unfold rescale in Hy. apply in_map_iff in Hy as [s [<- Hs]].
    replace 1 with ((mx - mn) / (mx - mn)) by (field; lra).
    apply rescale_monotone; [exact Hlt | apply Hub, Hs].
Qed.

Lemma amin_rescale (v : list R) (mn mx : R) :
  amax v = Ok mx -> amin v = Ok mn -> mn < mx ->
  amin (rescale mn mx v) = Ok 0.
Proof.
  intros Hmx Hmn Hlt. apply amin_spec in Hmn as [Hin Hlb].
  apply amin_intro.
  - unfold rescale. apply in_map_iff. exists mn. split; [field; lra | exact Hin].
  - intros y Hy. unfold rescale in Hy. apply in_map_iff in Hy as [s [<- Hs]].
    replace 0 with ((mn - mn) / (mx - mn)) by (field; lra).
    apply rescale_monotone; [exact Hlt | apply Hlb, Hs].
Qed.

Lemma normalize_degenerate (v : list R) (idx : list Z) (m : R) :
  amax v = Ok m -> amin v = Ok m ->
  normalize v idx = Ok (Series_scalar 0 idx).
Proof.
  intros Hmx Hmn. unfold normalize. rewrite Hmx, Hmn. simpl.
  destruct (Req_dec_T m m) as [_|Hne]; [reflexivity | congruence].
Qed.

Lemma normalize_regular (v : list R) (idx : list Z) (mn mx : R) :
  amax v = Ok mx -> amin v = Ok mn -> mx <> mn -> length v = length idx ->
  normalize v idx = Ok (mkSeries (rescale mn mx v) idx).
Proof.
  intros Hmx Hmn Hne Hlen. unfold normalize. rewrite Hmx, Hmn. simpl.
  destruct (Req_dec_T mx mn) as [E|_]; [congruence|].
  unfold Series_array. rewrite rescale_length, Hlen, Nat.eqb_refl. reflexivity.
Qed.

(** Whatever the branch, a returned series has the index it was given
    and one value per label. *)
Lemma normalize_shape (v : list R) (idx : list Z) (s : Series) :
  normalize v idx = Ok s ->
  series_index s = idx /\ length (values s) = length idx.
Proof.
  unfold normalize. destruct (amax v) as [mx|e]; simpl; [|discriminate].
  destruct (amin v) as [mn|e]; simpl; [|discriminate].
  destruct (Req_dec_T mx mn) as [_|_].
  - intros H. injection H as <-. simpl. split; [reflexivity | apply repeat_length].
  - unfold Series_array.
    destruct (Nat.eqb (length (rescale mn mx v)) (length idx)) eqn:E; [|discriminate].
    intros H. injection H as <-. simpl. split; [reflexivity | apply Nat.eqb_eq, E].
Qed.

Lemma normalize_total (v : list R) (idx : list Z) :
  v <> [] -> length v = length idx -> exists s, normalize v idx = Ok s.
Proof.
  intros Hv Hlen.
  destruct (amax_nonempty v Hv) as [mx Hmx].
  destruct (amin_nonempty v Hv) as [mn Hmn].
  destruct (Req_dec_T mx mn) as [E|Hne].
  - subst mn. eexists. eapply normalize_degenerate; eassumption.
  - eexists. eapply normalize_regular; eassumption.
Qed.

(** ** Selecting and converting the feature columns *)

Lemma filled_length (cells : list (option R)) : length (filled cells) = length cells.
Proof. apply length_map. Qed.

Lemma as_float_fillna (cells : list (option R)) :
  as_float (fillna 0 (Numeric cells)) = Ok (filled cells).
Proof.
  simpl. induction cells as [|[r|] cells IH]; simpl; [reflexivity| |];
    rewrite IH; reflexivity.
Qed.

Lemma getitem_selects (df : DataFrame) (features : list string) cellss :
  selects df features cellss -> getitem df features = Ok (map Numeric cellss).
Proof.
  unfold selects, getitem. induction 1 as [|f cells fs cs Hf _ IH]; simpl.
  - reflexivity.
  - rewrite Hf. simpl. rewrite IH. reflexivity.
Qed.

Lemma mapM_as_float_fillna cellss :
  mapM as_float (map (fillna 0) (map Numeric cellss)) = Ok (map filled cellss).
Proof.
  induction cellss as [|cells cellss IH]; [reflexivity|].
  cbn [map mapM]. rewrite as_float_fillna. simpl. rewrite IH. reflexivity.
Qed.

Lemma lookup_in (cols : list (string * column)) (n : string) (c : column) :
  NoDup (map fst cols) -> In (n, c) cols -> lookup n cols = Some c.
Proof.
  induction cols as [|[n0 c0] cols IH]; simpl; [tauto|].
  intros Hnd [E|Hin].
  - injection E as -> ->. rewrite String.eqb_refl. reflexivity.
  - inversion Hnd as [|? ? Hnotin Hnd']; subst.
    destruct (String.eqb n n0) eqn:E.
    + apply String.eqb_eq in E. subst n0. exfalso. apply Hnotin.
      apply in_map_iff. exists (n, c). split; [reflexivity | exact Hin].
    + apply IH; assumption.
Qed.

Lemma lookup_some_in (cols : list (string * column)) (n : string) (c : column) :
  lookup n cols = Some c -> In (n, c) cols.
Proof.
  induction cols as [|[n0 c0] cols IH]; simpl; [discriminate|].
  destruct (String.eqb n n0) eqn:E.
  - apply String.eqb_eq in E. subst n0. intros H. injection H as ->. left. reflexivity.
  - intros H. right. apply IH, H.
Qed.

Lemma numeric_cells_lookup (all cols : list (string * column)) :
  NoDup (map fst all) -> incl cols all ->
  Forall2 (fun f cells => lookup f all = Some (Numeric cells))
    (map fst (filter (fun nc => is_number (snd nc)) cols)) (numeric_cells cols).
Proof.
  intros Hnd. induction cols as [|[n c] cols IH]; intros Hsub; simpl; [constructor|].
  assert (Hsub' : incl cols all) by (intros nc Hin; apply Hsub; right; exact Hin).
  destruct c as [cells|cells]; simpl.
  - constructor; [|apply IH, Hsub'].
    apply lookup_in; [exact Hnd | apply Hsub; left; reflexivity].
  - apply IH, Hsub'.
Qed.

Lemma select_dtypes_number_selects (df : DataFrame) :
  well_formed df ->
  selects df (select_dtypes_number df) (numeric_cells (columns df)).
Proof.
  intros [_ Hnd]. unfold selects, select_dtypes_number.
  apply numeric_cells_lookup; [exact Hnd | apply incl_refl].
Qed.

Lemma selects_lengths (df : DataFrame) features cellss :
  well_formed df -> selects df features cellss ->
  Forall (fun cells => length cells = length (index df)) cellss.
Proof.
  intros [Hlen _]. unfold selects.
  induction 1 as [|f cells fs cs Hf _ IH]; constructor; [|exact IH].
  apply lookup_some_in in Hf. rewrite Forall_forall in Hlen.
  apply (Hlen _ Hf).
Qed.

Lemma selects_length (df : DataFrame) features cellss :
  selects df features cellss -> length cellss = length features.
Proof. intros H. symmetry. eapply Forall2_length, H. Qed.

Lemma standardize_length (c : list R) : length (standardize c) = length c.
Proof. apply length_map. Qed.

Lemma n_samples_selected (df : DataFrame) features cellss :
  well_formed df -> selects df features cellss -> cellss <> [] ->
  n_samples (map filled cellss) = length (index df)
  /\ n_samples (map standardize (map filled cellss)) = length (index df).
Proof.
  intros Hwf Hsel Hne. pose proof (selects_lengths df features cellss Hwf Hsel) as Hl.
  destruct cellss as [|cells cellss]; [congruence|].
  inversion Hl as [|? ? Hc _]; subst. simpl.
  rewrite standardize_length, filled_length. auto.
Qed.

Lemma fit_transform_selected (df : DataFrame) features cellss :
  well_formed df -> selects df features cellss -> cellss <> [] -> index df <> [] ->
  StandardScaler_fit_transform (map (fillna 0) (map Numeric cellss))
  = Ok (map standardize (map filled cellss)).
Proof.
  intros Hwf Hsel Hne Hrows.
  destruct (n_samples_selected df features cellss Hwf Hsel Hne) as [Hn _].
  unfold StandardScaler_fit_transform, check_array.
  rewrite mapM_as_float_fillna. simpl. rewrite length_map.
  destruct cellss as [|cells cellss]; [congruence|]. cbn [length Nat.eqb].
  rewrite Hn. destruct (index df); [congruence|]. reflexivity.
Qed.

(** With no row, [check_array] refuses the matrix. *)
Lemma fit_transform_no_rows (df : DataFrame) features cellss :
  well_formed df -> selects df features cellss -> index df = [] ->
  StandardScaler_fit_transform (map (fillna 0) (map Numeric cellss))
  = Raise ValueError.
Proof.
  intros Hwf Hsel Hrows.
  unfold StandardScaler_fit_transform, check_array.
  rewrite mapM_as_float_fillna. simpl. rewrite length_map.
  destruct cellss as [|cells cellss]; [reflexivity|]. cbn [length Nat.eqb].
  assert (Hne : cells :: cellss <> []) by discriminate.
  destruct (n_samples_selected df features _ Hwf Hsel Hne) as [Hn _].
  rewrite Hn, Hrows. reflexivity.
Qed.

(** ** Standardising a column *)

Lemma mean_constant (a : R) (n : nat) : (0 < n)%nat -> mean (repeat a n) = a.
Proof.
  intros Hn. unfold mean. rewrite sum_repeat, repeat_length.
  field. apply not_0_INR. lia.
Qed.

Lemma constant_repeat (a : R) (c : list R) :
  (forall x, In x c -> x = a) -> c = repeat a (length c).
Proof.
  induction c as [|x c IH]; intros H; [reflexivity|]. simpl.
  rewrite (H x (or_introl eq_refl)). f_equal. apply IH.
  intros y Hy. apply H. right. exact Hy.
Qed.

Lemma map_zero_repeat {A : Type} (f : A -> R) (l : list A) :
  (forall x, In x l -> f x = 0) -> map f l = repeat 0 (length l).
Proof.
  induction l as [|x l IH]; intros H; [reflexivity|]. simpl.
  rewrite (H x (or_introl eq_refl)). f_equal. apply IH.
  intros y Hy. apply H. right. exact Hy.
Qed.

Lemma var_constant (a : R) (n : nat) : var (repeat a n) = 0.
Proof.
  destruct n as [|n].
  - unfold var, sum. simpl. lra.
  - unfold var. rewrite mean_constant by lia.
    rewrite (map_zero_repeat _ (repeat a (S n))).
    + rewrite sum_repeat. lra.
    + intros x Hx. apply repeat_spec in Hx. subst x. lra.
Qed.

(** On a column of zero variance the scale is 1: nothing is divided by
    zero. *)
Lemma scale_constant (a : R) (n : nat) : scale_ (repeat a n) = 1.
Proof.
  unfold scale_, handle_zeros_in_scale. rewrite var_constant, sqrt_0.
  destruct (Req_dec_T 0 0) as [_|H]; [reflexivity | congruence].
Qed.

Lemma standardize_constant (a : R) (n : nat) :
  standardize (repeat a n) = repeat 0 n.
Proof.
  destruct n as [|n]; [reflexivity|].
  unfold standardize. rewrite scale_constant, mean_constant by lia.
  rewrite (map_zero_repeat _ (repeat a (S n))).
  - rewrite repeat_length. reflexivity.
  - intros x Hx. apply repeat_spec in Hx. subst x. lra.
Qed.

Lemma scale_nonzero (c : list R) : scale_ c <> 0.
Proof.
  unfold scale_, handle_zeros_in_scale.
  destruct (Req_dec_T (sqrt (var c)) 0); [lra | assumption].
Qed.

Lemma var_nonneg (c : list R) : 0 <= var c.
Proof.
  unfold var. destruct c as [|x c].
  - unfold sum. simpl. lra.
  - apply Rmult_le_pos.
    + apply (sum_squares_nonneg (fun y => y - mean (x :: c))).
    + apply Rlt_le, Rinv_0_lt_compat, INR_length_pos. discriminate.
Qed.

Lemma scale_positive (c : list R) : 0 < scale_ c.
Proof.
  unfold scale_, handle_zeros_in_scale.
  destruct (Req_dec_T (sqrt (var c)) 0) as [_|Hne]; [lra|].
  pose proof (sqrt_pos (var c)). lra.
Qed.

(** ** Projections of a matrix of zeros *)

Lemma dot_zero_row (X : matrix) (i : nat) (v : list R) :
  (forall c, In c X -> nth i c 0 = 0) -> dot (row X i) v = 0.
Proof.
  unfold dot, row, sum. revert v.
  induction X as [|c X IH]; intros v H; [reflexivity|].
  destruct v as [|a v]; [reflexivity|]. simpl.
  rewrite (H c (or_introl eq_refl)).
  rewrite IH by (intros c' Hc'; apply H; right; exact Hc'). lra.
Qed.

Lemma center_zero (n : nat) :
  map (fun x => x - mean (repeat 0 n)) (repeat 0 n) = repeat 0 n.
Proof.
  destruct n as [|n]; [reflexivity|].
  rewrite mean_constant by lia.
  rewrite (map_zero_repeat _ (repeat 0 (S n))).
  - rewrite repeat_length. reflexivity.
  - intros x Hx. apply repeat_spec in Hx. subst x. lra.
Qed.

Lemma nth_repeat_zero (n i : nat) : nth i (repeat 0 n) 0 = 0.
Proof.
  revert i. induction n as [|n IH]; intros [|i]; simpl; auto.
Qed.

Lemma amax_zeros (n : nat) : (0 < n)%nat -> amax (repeat 0 n) = Ok 0.
Proof.
  intros Hn. apply amax_intro.
  - destruct n; [lia | left; reflexivity].
  - intros y Hy. apply repeat_spec in Hy. lra.
Qed.

Lemma amin_zeros (n : nat) : (0 < n)%nat -> amin (repeat 0 n) = Ok 0.
Proof.
  intros Hn. apply amin_intro.
  - destruct n; [lia | left; reflexivity].
  - intros y Hy. apply repeat_spec in Hy. lra.
Qed.

Lemma nth_map_lt (f : R -> R) (l : list R) (i : nat) :
  (i < length l)%nat -> nth i (map f l) 0 = f (nth i l 0).
Proof.
  intros Hi. rewrite (nth_indep _ 0 (f 0)) by (rewrite length_map; exact Hi).
  apply map_nth.
Qed.

Lemma nth_standardize (c : list R) (i : nat) :
  (i < length c)%nat ->
  nth i (standardize c) 0 = (nth i c 0 - mean c) / scale_ c.
Proof.
  intros Hi. unfold standardize.
  apply (nth_map_lt (fun x => (x - mean c) / scale_ c) c i Hi).
Qed.

(** Standardising preserves ties and strict order. *)
Lemma standardize_strict (c : list R) (i j : nat) :
  (i < length c)%nat -> (j < length c)%nat -> nth i c 0 < nth j c 0 ->
  nth i (standardize c) 0 < nth j (standardize c) 0.
Proof.
  intros Hi Hj Hlt. rewrite !nth_standardize by assumption.
  unfold Rdiv. apply Rmult_lt_compat_r; [|lra].
  apply Rinv_0_lt_compat, scale_positive.
Qed.

Lemma standardize_tie (c : list R) (i j : nat) :
  (i < length c)%nat -> (j < length c)%nat -> nth i c 0 = nth j c 0 ->
  nth i (standardize c) 0 = nth j (standardize c) 0.
Proof.
  intros Hi Hj E. rewrite !nth_standardize by assumption. rewrite E. reflexivity.
Qed.

(** ** Scenario A: the column [10, 20, 30] *)

Lemma mean_10_20_30 : mean [10; 20; 30] = 20.
Proof. unfold mean, sum. simpl. lra. Qed.

Lemma var_10_20_30 : var [10; 20; 30] = 200 / 3.
Proof. unfold var. rewrite mean_10_20_30. unfold sum. simpl. lra. Qed.

Lemma scale_10_20_30 : scale_ [10; 20; 30] = 10 / sqrt (3 / 2).
Proof.
  unfold scale_, handle_zeros_in_scale. rewrite var_10_20_30.
  assert (Ha : 0 < sqrt (3 / 2)) by (apply sqrt_lt_R0; lra).
  assert (Hs : 0 < sqrt (200 / 3)) by (apply sqrt_lt_R0; lra).
  destruct (Req_dec_T (sqrt (200 / 3)) 0) as [E|_]; [lra|].
  assert (Hprod : sqrt (200 / 3) * sqrt (3 / 2) = 10).
  { rewrite <- sqrt_mult by lra.
    replace (200 / 3 * (3 / 2)) with (10 * 10) by field.
    apply sqrt_square. lra. }
  rewrite <- Hprod. field. lra.
Qed.

Lemma standardize_10_20_30 :
  standardize [10; 20; 30] = [- sqrt (3 / 2); 0; sqrt (3 / 2)].
Proof.
  assert (Ha : 0 < sqrt (3 / 2)) by (apply sqrt_lt_R0; lra).
  unfold standardize. rewrite mean_10_20_30, scale_10_20_30. simpl.
  repeat f_equal; field; lra.
Qed.

(** ** One-component PCA next to a column of zeros *)

Lemma map_nth_seq_id (l : list R) :
  map (fun i => nth i l 0) (seq 0 (length l)) = l.
Proof.
  apply (nth_ext _ _ 0 0).
  - rewrite length_map, length_seq. reflexivity.
  - intros i Hi. rewrite length_map, length_seq in Hi.
    rewrite (nth_indep _ 0 ((fun i => nth i l 0) O)) by (rewrite length_map, length_seq; exact Hi).
    rewrite (map_nth (fun i => nth i l 0)). rewrite seq_nth by exact Hi. reflexivity.
Qed.

Lemma sum_standardize (c : list R) : c <> [] -> sum (standardize c) = 0.
Proof.
  intros Hc. unfold standardize.
  replace (map (fun x => (x - mean c) / scale_ c) c)
    with (map (fun x => / scale_ c * (fun y => y - mean c) x) c)
    by (apply map_ext; intros; unfold Rdiv; lra).
  rewrite sum_map_scal, sum_deviations by exact Hc. lra.
Qed.

Lemma mean_standardize (c : list R) : mean (standardize c) = 0.
Proof.
  destruct c as [|x c]; [unfold mean, sum; simpl; lra|].
  unfold mean. rewrite sum_standardize by discriminate. lra.
Qed.

Lemma center_standardize (c : list R) :
  map (fun x => x - mean (standardize c)) (standardize c) = standardize c.
Proof.
  rewrite mean_standardize. rewrite <- (map_id (standardize c)) at 2.
  apply map_ext. intros. lra.
Qed.

Lemma standardize_not_constant (c : list R) :
  ~ constant_column c ->
  0 < sum (map (fun i => nth i (standardize c) 0 * nth i (standardize c) 0)
             (seq 0 (length c))).
Proof.
  intros Hnc.
  pose proof (sum_squares_nonneg (fun i => nth i (standardize c) 0) (seq 0 (length c))) as H0.
  destruct (Req_dec_T (sum (map (fun i => nth i (standardize c) 0 * nth i (standardize c) 0)
             (seq 0 (length c)))) 0) as [E|Hne]; [|lra].
  exfalso. apply Hnc. exists (mean c). intros x Hx.
  destruct (In_nth _ _ 0 Hx) as [i [Hi Hnth]].
  pose proof (sum_squares_zero (fun i => nth i (standardize c) 0) _ E i) as Hz.
  simpl in Hz. rewrite nth_standardize in Hz by exact Hi.
  specialize (Hz ltac:(apply in_seq; lia)).
  pose proof (scale_positive c) as Hs.
  rewrite Hnth in Hz.
  assert (x - mean c = 0).
  { replace (x - mean c) with ((x - mean c) / scale_ c * scale_ c) by (field; lra).
    rewrite Hz. lra. }
  lra.
Qed.

Lemma unit_axis_extreme (a b E : R) :
  0 < E -> a * a + b * b = 1 -> E <= b * b * E ->
  a = 0 /\ (b = 1 \/ b = -1).
Proof.
  intros HE Hunit Hmax.
  assert (Hb : 1 <= b * b) by nra.
  assert (Ha : a * a = 0) by nra.
  assert (Hb1 : (b - 1) * (b + 1) = 0) by nra.
  split; [nra|].
  destruct (Rmult_integral _ _ Hb1); [left | right]; lra.
Qed.

Lemma sign_unit (b : R) : b = 1 \/ b = -1 -> sign b * b = 1.
Proof.
  unfold sign. intros [->| ->].
  - destruct (Rlt_dec 0 1); lra.
  - destruct (Rlt_dec 0 (-1)); [lra|]. destruct (Rlt_dec (-1) 0); lra.
Qed.

Lemma svd_flip_second (b : R) : b = 1 \/ b = -1 -> svd_flip [0; b] = [0; 1].
Proof.
  intros Hb. unfold svd_flip. simpl argmax_abs.
  assert (Habs : Rabs b = 1) by (destruct Hb as [->| ->]; unfold Rabs; destruct (Rcase_abs _); lra).
  rewrite Rabs_R0, Habs.
  destruct (Rlt_dec 0 1) as [_|H]; [|lra].
  simpl. rewrite (sign_unit b Hb). f_equal. lra.
Qed.

Lemma svd_flip_first (a : R) : a = 1 \/ a = -1 -> svd_flip [a; 0] = [1; 0].
Proof.
  intros Ha. unfold svd_flip. simpl argmax_abs.
  assert (Habs : Rabs a = 1) by (destruct Ha as [->| ->]; unfold Rabs; destruct (Rcase_abs _); lra).
  rewrite Rabs_R0, Habs.
  destruct (Rlt_dec 1 0) as [H|_]; [lra|].
  simpl. rewrite (sign_unit a Ha). f_equal. f_equal. lra.
Qed.

Lemma dot_pair (a b w1 w2 : R) : dot [a; b] [w1; w2] = a * w1 + b * w2.
Proof. unfold dot, sum. simpl. lra. Qed.

Lemma energy_second_column (n : nat) (z : list R) (w1 w2 : R) :
  projected_energy [repeat 0 n; z] [w1; w2]
  = w2 * w2 * sum (map (fun i => nth i z 0 * nth i z 0) (seq 0 n)).
Proof.
  unfold projected_energy. simpl n_samples. rewrite repeat_length.
  rewrite <- sum_map_scal. apply sum_map_ext. intros i _.
  simpl row. rewrite dot_pair, nth_repeat_zero. ring.
Qed.

Lemma energy_first_column (n : nat) (z : list R) (w1 w2 : R) :
  length z = n ->
  projected_energy [z; repeat 0 n] [w1; w2]
  = w1 * w1 * sum (map (fun i => nth i z 0 * nth i z 0) (seq 0 n)).
Proof.
  intros Hz. unfold projected_energy. simpl n_samples. rewrite Hz.
  rewrite <- sum_map_scal. apply sum_map_ext. intros i _.
  simpl row. rewrite dot_pair, nth_repeat_zero. ring.
Qed.

(** Next to a column of zeros the first principal axis is the other
    coordinate axis, and [svd_flip] gives it the positive direction. *)
Lemma axis_zero_first (n : nat) (z v : list R) :
  0 < sum (map (fun i => nth i z 0 * nth i z 0) (seq 0 n)) ->
  first_principal_axis [repeat 0 n; z] v -> svd_flip v = [0; 1].
Proof.
  intros HE [Hlen [Hunit Hmax]].
  destruct v as [|a [|b [|c v]]]; try discriminate.
  rewrite dot_pair in Hunit.
  specialize (Hmax [0; 1] eq_refl). rewrite dot_pair in Hmax.
  specialize (Hmax ltac:(lra)). rewrite !energy_second_column in Hmax.
  destruct (unit_axis_extreme a b _ HE Hunit) as [-> Hb]; [lra|].
  apply svd_flip_second, Hb.
Qed.

Lemma axis_zero_second (n : nat) (z v : list R) :
  length z = n ->
  0 < sum (map (fun i => nth i z 0 * nth i z 0) (seq 0 n)) ->
  first_principal_axis [z; repeat 0 n] v -> svd_flip v = [1; 0].
Proof.
  intros Hz HE [Hlen [Hunit Hmax]].
  destruct v as [|a [|b [|c v]]]; try discriminate.
  rewrite dot_pair in Hunit.
  specialize (Hmax [1; 0] eq_refl). rewrite dot_pair in Hmax.
  specialize (Hmax ltac:(lra)). rewrite !energy_first_column in Hmax by exact Hz.
  destruct (unit_axis_extreme b a _ HE) as [-> Ha]; [lra | lra |].
  apply svd_flip_first, Ha.
Qed.

(** [(0, -1)] is a first principal axis of any matrix whose first column
    is zero. *)
Lemma axis_zero_first_exists (n : nat) (z : list R) :
  first_principal_axis [repeat 0 n; z] [0; -1].
Proof.
  split; [reflexivity|]. split; [rewrite dot_pair; lra|].
  intros w Hlen Hunit. destruct w as [|a [|b [|c w]]]; try discriminate.
  rewrite dot_pair in Hunit. rewrite !energy_second_column.
  pose proof (sum_squares_nonneg (fun i => nth i z 0) (seq 0 n)) as HE.
  simpl in HE. nra.
Qed.

Lemma center_pair_zero_first (c : list R) :
  center [repeat 0 (length c); standardize c] = [repeat 0 (length c); standardize c].
Proof. unfold center. simpl. rewrite center_zero, center_standardize. reflexivity. Qed.

Lemma center_pair_zero_second (c : list R) :
  center [standardize c; repeat 0 (length c)] = [standardize c; repeat 0 (length c)].
Proof. unfold center. simpl. rewrite center_zero, center_standardize. reflexivity. Qed.

Section Properties.

Variable svd_axis : matrix -> list R.

Lemma score_vector_selected (df : DataFrame) features cellss :
  well_formed df -> selects df features cellss -> cellss <> [] -> index df <> [] ->
  score_vector svd_axis df features = Ok (scores_of svd_axis cellss).
Proof.
  intros Hwf Hsel Hne Hrows. unfold score_vector.
  rewrite (getitem_selects df features cellss Hsel). simpl.
  rewrite (fit_transform_selected df features cellss Hwf Hsel Hne Hrows). simpl.
  unfold scores_of. destruct (Nat.eqb _ 1); reflexivity.
Qed.

Lemma score_vector_no_rows (df : DataFrame) features cellss :
  well_formed df -> selects df features cellss -> index df = [] ->
  score_vector svd_axis df features = Raise ValueError.
Proof.
  intros Hwf Hsel Hrows. unfold score_vector.
  rewrite (getitem_selects df features cellss Hsel). simpl.
  rewrite (fit_transform_no_rows df features cellss Hwf Hsel Hrows). reflexivity.
Qed.

Lemma scores_of_length (df : DataFrame) features cellss :
  well_formed df -> selects df features cellss -> cellss <> [] ->
  length (scores_of svd_axis cellss) = length (index df).
Proof.
  intros Hwf Hsel Hne.
  destruct (n_samples_selected df features cellss Hwf Hsel Hne) as [_ Hn].
  unfold scores_of.
  destruct (Nat.eqb (length (map standardize (map filled cellss))) 1) eqn:E.
  - apply Nat.eqb_eq in E.
    destruct (map standardize (map filled cellss)) as [|c [|c' X]]; try discriminate.
    simpl in *. rewrite app_nil_r. exact Hn.
  - unfold PCA_fit_transform. rewrite length_map, length_seq. exact Hn.
Qed.

Lemma scores_of_single (cells : list (option R)) :
  scores_of svd_axis [cells] = standardize (filled cells).
Proof. unfold scores_of. simpl. apply app_nil_r. Qed.

(** [compute_index] on a table whose feature set is not empty. *)
Lemma compute_index_features (df : DataFrame) (features : option (list string)) :
  resolve_features df features <> [] ->
  compute_index svd_axis df features
  = (score <- score_vector svd_axis df (resolve_features df features) ;;
     normalize score (index df)).
Proof.
  intros Hne. unfold compute_index.
  destruct (resolve_features df features); [congruence | reflexivity].
Qed.

Lemma compute_index_selected (df : DataFrame) (features : option (list string)) cellss :
  well_formed df -> selects df (resolve_features df features) cellss ->
  cellss <> [] -> index df <> [] ->
  compute_index svd_axis df features = normalize (scores_of svd_axis cellss) (index df).
Proof.
  intros Hwf Hsel Hne Hrows.
  rewrite compute_index_features.
  - rewrite (score_vector_selected df _ cellss Hwf Hsel Hne Hrows). reflexivity.
  - intros E. apply selects_length in Hsel. rewrite E in Hsel.
    destruct cellss; [congruence | discriminate].
Qed.

(** ** Degenerate score vectors *)

Lemma scores_constant_columns (df : DataFrame) features cellss :
  well_formed df -> selects df features cellss -> cellss <> [] ->
  (forall cells, In cells cellss -> constant_column (filled cells)) ->
  scores_of svd_axis cellss = repeat 0 (length (index df)).
Proof.
  intros Hwf Hsel Hne Hconst.
  destruct (n_samples_selected df features cellss Hwf Hsel Hne) as [_ Hn].
  pose proof (selects_lengths df features cellss Hwf Hsel) as Hlen.
  rewrite Forall_forall in Hlen.
  assert (HX : forall c, In c (map standardize (map filled cellss)) ->
                         c = repeat 0 (length (index df))).
  { intros c Hc. apply in_map_iff in Hc as [c0 [<- Hc0]].
    apply in_map_iff in Hc0 as [cells [<- Hcells]].
    destruct (Hconst cells Hcells) as [a Ha].
    rewrite (constant_repeat a _ Ha), standardize_constant, filled_length.
    rewrite (Hlen cells Hcells). reflexivity. }
  unfold scores_of.
  destruct (Nat.eqb (length (map standardize (map filled cellss))) 1) eqn:E.
  - apply Nat.eqb_eq in E.
    destruct (map standardize (map filled cellss)) as [|c [|c' X]]; try discriminate.
    simpl. rewrite app_nil_r. apply HX. left. reflexivity.
  - unfold PCA_fit_transform. rewrite Hn.
    rewrite map_zero_repeat; [rewrite length_seq; reflexivity|].
    intros i _. apply dot_zero_row. intros c Hc.
    unfold center in Hc. apply in_map_iff in Hc as [c0 [<- Hc0]].
    rewrite (HX c0 Hc0), center_zero. apply nth_repeat_zero.
Qed.

Lemma amax_amin_singleton (v : list R) (mx mn : R) :
  length v = 1%nat -> amax v = Ok mx -> amin v = Ok mn -> mx = mn.
Proof.
  destruct v as [|a [|b v]]; try discriminate. simpl. congruence.
Qed.

(** ** Shape of the result *)

Lemma compute_index_shape_of_result (df : DataFrame) features (s : Series) :
  compute_index svd_axis df features = Ok s ->
  series_index s = index df /\ length (values s) = length (index df).
Proof.
  unfold compute_index.
  destruct (Nat.eqb (length (resolve_features df features)) 0).
  - intros H. injection H as <-. simpl. split; [reflexivity | apply repeat_length].
  - destruct (score_vector svd_axis df (resolve_features df features)) as [sc|e];
      simpl; [|discriminate].
    apply normalize_shape.
Qed.

Lemma compute_index_empty_features (df : DataFrame) features :
  resolve_features df features = [] ->
  compute_index svd_axis df features
  = Ok (mkSeries (repeat 0 (length (index df))) (index df)).
Proof. intros H. unfold compute_index. rewrite H. reflexivity. Qed.

Lemma no_numeric_column (df : DataFrame) :
  (forall nc, In nc (columns df) -> is_number (snd nc) = false) ->
  select_dtypes_number df = [].
Proof.
  intros H. unfold select_dtypes_number.
  induction (columns df) as [|nc cols IH]; [reflexivity|]. simpl.
  rewrite (H nc (or_introl eq_refl)). apply IH.
  intros nc' Hin. apply H. right. exact Hin.
Qed.

Lemma normalize_pointwise (v : list R) (idx : list Z) (s : Series) :
  length v = length idx -> normalize v idx = Ok s ->
  exists g, values s = map g v.
Proof.
  intros Hlen. unfold normalize.
  destruct (amax v) as [mx|e]; simpl; [|discriminate].
  destruct (amin v) as [mn|e]; simpl; [|discriminate].
  destruct (Req_dec_T mx mn) as [_|_].
  - intros H. injection H as <-. exists (fun _ => 0). simpl.
    rewrite <- Hlen. symmetry. apply map_zero_repeat. reflexivity.
  - unfold Series_array. destruct (Nat.eqb _ _); [|discriminate].
    intros H. injection H as <-. eexists. reflexivity.
Qed.

Lemma compute_index_returns (df : DataFrame) features cellss :
  well_formed df ->
  selects df (resolve_features df features) cellss -> index df <> [] ->
  exists s, compute_index svd_axis df features = Ok s
            /\ (cellss <> [] ->
                exists g, values s = map g (scores_of svd_axis cellss)).
Proof.
  intros Hwf Hsel Hrows.
  destruct cellss as [|cells cellss].
  - pose proof (selects_length _ _ _ Hsel) as Hl.
    destruct (resolve_features df features) eqn:E; [|discriminate].
    eexists. split; [apply compute_index_empty_features, E | congruence].
  - assert (Hne : cells :: cellss <> []) by discriminate.
    pose proof (scores_of_length df _ _ Hwf Hsel Hne) as Hlen.
    rewrite (compute_index_selected df features _ Hwf Hsel Hne Hrows).
    destruct (normalize_total (scores_of svd_axis (cells :: cellss)) (index df))
      as [s Hs]; [|exact Hlen|].
    + intros E. rewrite E in Hlen. destruct (index df); [congruence | discriminate].
    + exists s. split; [exact Hs|].
      intros _. eapply normalize_pointwise; eassumption.
Qed.

(** C2. Whenever [compute_index] returns, the series has the index of
    the table, in the same order, and one score per row; it does return
    on every table with at least one row whose features are numeric
    columns, and there the value at position [i] is a function of the
    score of row [i]. *)
Theorem compute_index_rows (df : DataFrame) (features : option (list string)) :
  well_formed df ->
  (forall s, compute_index svd_axis df features = Ok s ->
             series_index s = index df /\ length (values s) = length (index df))
  /\ (forall cellss,
        selects df (resolve_features df features) cellss -> index df <> [] ->
        exists s, compute_index svd_axis df features = Ok s
                  /\ series_index s = index df
                  /\ length (values s) = length (index df)
                  /\ (cellss <> [] ->
                      exists g, values s = map g (scores_of svd_axis cellss))).
Proof.
  intros Hwf. split; [intros s; apply compute_index_shape_of_result|].
  intros cellss Hsel Hrows.
  destruct (compute_index_returns df features cellss Hwf Hsel Hrows) as [s [Hs Hg]].
  destruct (compute_index_shape_of_result df features s Hs) as [Hi Hv].
  exists s. auto.
Qed.

(** C1 (amended). [compute_index] returns a series on every table with
    at least one row and on every table without numeric columns; on a
    table with no row and at least one numeric column it raises
    ValueError. *)
Theorem compute_index_defined (df : DataFrame) :
  well_formed df ->
  (index df <> [] \/ select_dtypes_number df = [] ->
   exists s, compute_index svd_axis df None = Ok s)
  /\ (index df = [] -> select_dtypes_number df <> [] ->
      compute_index svd_axis df None = Raise ValueError).
Proof.
  intros Hwf. pose proof (select_dtypes_number_selects df Hwf) as Hsel. split.
  - intros [Hrows|Hnone].
    + destruct (compute_index_returns df None _ Hwf Hsel Hrows) as [s [Hs _]].
      exists s. exact Hs.
    + eexists. apply compute_index_empty_features. exact Hnone.
  - intros Hrows Hsome. rewrite compute_index_features by exact Hsome.
    simpl. rewrite (score_vector_no_rows df _ _ Hwf Hsel Hrows). reflexivity.
Qed.

(** C5. With an empty feature set (no numeric column and no explicit
    feature, or an explicit empty list) every row scores 0.0. *)
Theorem compute_index_no_features (df : DataFrame) (features : option (list string)) :
  (features = None /\ forall nc, In nc (columns df) -> is_number (snd nc) = false)
  \/ features = Some [] ->
  exists s, compute_index svd_axis df features = Ok s
            /\ series_index s = index df
            /\ values s = repeat 0 (length (index df)).
Proof.
  intros H. eexists. split; [apply compute_index_empty_features | split; reflexivity].
  destruct H as [[-> H]| ->]; [apply no_numeric_column, H | reflexivity].
Qed.

(** ** The guard for a constant score *)

Lemma scores_extrema (df : DataFrame) features cellss :
  well_formed df -> selects df features cellss -> cellss <> [] -> index df <> [] ->
  exists mx mn, amax (scores_of svd_axis cellss) = Ok mx
                /\ amin (scores_of svd_axis cellss) = Ok mn.
Proof.
  intros Hwf Hsel Hne Hrows.
  pose proof (scores_of_length df _ _ Hwf Hsel Hne) as Hlen.
  assert (Hsc : scores_of svd_axis cellss <> []).
  { intros E. rewrite E in Hlen. destruct (index df); [congruence | discriminate]. }
  destruct (amax_nonempty _ Hsc) as [mx Hmx].
  destruct (amin_nonempty _ Hsc) as [mn Hmn]. eauto.
Qed.

(** C7. On a table with at least one row and a non-empty set of numeric
    features, the score vector has a maximum and a minimum; when they
    are equal every row gets 0.0, otherwise row by row
    [(score - min) / (max - min)].  A single row and constant feature
    columns both make them equal. *)
Theorem compute_index_degenerate_guard (df : DataFrame) features cellss :
  well_formed df ->
  selects df (resolve_features df features) cellss ->
  cellss <> [] -> index df <> [] ->
  exists mx mn,
    score_vector svd_axis df (resolve_features df features)
    = Ok (scores_of svd_axis cellss)
    /\ amax (scores_of svd_axis cellss) = Ok mx
    /\ amin (scores_of svd_axis cellss) = Ok mn
    /\ (mx = mn ->
        compute_index svd_axis df features
        = Ok (mkSeries (repeat 0 (length (index df))) (index df)))
    /\ (mx <> mn ->
        compute_index svd_axis df features
        = Ok (mkSeries (map (fun s => (s - mn) / (mx - mn)) (scores_of svd_axis cellss))
                (index df)))
    /\ (length (index df) = 1%nat -> mx = mn)
    /\ ((forall cells, In cells cellss -> constant_column (filled cells)) -> mx = mn).
Proof.
  intros Hwf Hsel Hne Hrows.
  destruct (scores_extrema df _ _ Hwf Hsel Hne Hrows) as [mx [mn [Hmx Hmn]]].
  pose proof (scores_of_length df _ _ Hwf Hsel Hne) as Hlen.
  exists mx, mn.
  split; [apply score_vector_selected; assumption|].
  split; [exact Hmx|]. split; [exact Hmn|].
  rewrite (compute_index_selected df features _ Hwf Hsel Hne Hrows).
  split; [|split; [|split]].
  - intros E. subst mn. eapply normalize_degenerate; eassumption.
  - intros E. apply normalize_regular; assumption.
  - intros H1. eapply amax_amin_singleton; [|eassumption|eassumption]. congruence.
  - intros Hc.
    rewrite (scores_constant_columns df _ _ Hwf Hsel Hne Hc) in Hmx, Hmn.
    assert (Hn : (0 < length (index df))%nat)
      by (destruct (index df); [congruence | simpl; lia]).
    rewrite (amax_zeros _ Hn) in Hmx. rewrite (amin_zeros _ Hn) in Hmn. congruence.
Qed.

Lemma in_nth_zero (v : list R) (x : R) :
  In x v -> exists i, (i < length v)%nat /\ nth i v 0 = x.
Proof. apply In_nth. Qed.

Lemma nth_rescale (mn mx : R) (v : list R) (i : nat) :
  (i < length v)%nat ->
  nth i (rescale mn mx v) 0 = (nth i v 0 - mn) / (mx - mn).
Proof.
  intros Hi. unfold rescale.
  rewrite (nth_indep _ 0 ((fun s => (s - mn) / (mx - mn)) 0))
    by (rewrite length_map; exact Hi).
  apply (map_nth (fun s => (s - mn) / (mx - mn))).
Qed.

(** C10. On the rescaling branch some row (one of minimal score) gets
    exactly 0 and some row (one of maximal score) gets exactly 1. *)
Theorem compute_index_attains_endpoints (df : DataFrame) features cellss (mx mn : R) :
  well_formed df ->
  selects df (resolve_features df features) cellss ->
  cellss <> [] -> index df <> [] ->
  amax (scores_of svd_axis cellss) = Ok mx ->
  amin (scores_of svd_axis cellss) = Ok mn ->
  mn < mx ->
  exists s,
    compute_index svd_axis df features = Ok s
    /\ (exists i, (i < length (index df))%nat
                  /\ nth i (scores_of svd_axis cellss) 0 = mn
                  /\ nth i (values s) 0 = 0)
    /\ (exists j, (j < length (index df))%nat
                  /\ nth j (scores_of svd_axis cellss) 0 = mx
                  /\ nth j (values s) 0 = 1).
Proof.
  intros Hwf Hsel Hne Hrows Hmx Hmn Hlt.
  pose proof (scores_of_length df _ _ Hwf Hsel Hne) as Hlen.
  rewrite (compute_index_selected df features _ Hwf Hsel Hne Hrows).
  rewrite (normalize_regular _ _ mn mx Hmx Hmn) by (lra || assumption).
  eexists. split; [reflexivity|]. simpl.
  destruct (amax_spec _ _ Hmx) as [Hinmx _].
  destruct (amin_spec _ _ Hmn) as [Hinmn _].
  split.
  - destruct (in_nth_zero _ _ Hinmn) as [i [Hi Hnth]].
    exists i. rewrite <- Hlen. split; [exact Hi|]. split; [exact Hnth|].
    rewrite nth_rescale, Hnth by exact Hi. field. lra.
  - destruct (in_nth_zero _ _ Hinmx) as [j [Hj Hnth]].
    exists j. rewrite <- Hlen. split; [exact Hj|]. split; [exact Hnth|].
    rewrite nth_rescale, Hnth by exact Hj. field. lra.
Qed.

(** ** One feature *)



Lemma in_nth_lt (v : list R) (i : nat) : (i < length v)%nat -> In (nth i v 0) v.
Proof. apply nth_In. Qed.

(** The scores of a single feature, position by position. *)
Lemma normalize_order (v : list R) (idx : list Z) (s : Series) :
  length v = length idx -> normalize v idx = Ok s ->
  forall i j, (i < length v)%nat -> (j < length v)%nat ->
    (nth i v 0 = nth j v 0 -> nth i (values s) 0 = nth j (values s) 0)
    /\ (nth i v 0 < nth j v 0 -> nth i (values s) 0 < nth j (values s) 0).
Proof.
  intros Hlen Hs i j Hi Hj.
  assert (Hv : v <> []) by (intros E; subst v; simpl in Hi; lia).
  destruct (amax_nonempty v Hv) as [mx Hmx].
  destruct (amin_nonempty v Hv) as [mn Hmn].
  destruct (amax_spec _ _ Hmx) as [_ Hub].
  destruct (amin_spec _ _ Hmn) as [_ Hlb].
  pose proof (Hub _ (in_nth_lt v j Hj)) as Hj_le.
  pose proof (Hlb _ (in_nth_lt v i Hi)) as Hi_ge.
  destruct (Req_dec_T mx mn) as [E|Hne].
  - subst mn. rewrite (normalize_degenerate v idx mx Hmx Hmn) in Hs.
    injection Hs as <-. simpl. rewrite !nth_repeat_zero.
    split; [reflexivity | intros Hlt; lra].
  - rewrite (normalize_regular v idx mn mx Hmx Hmn Hne Hlen) in Hs.
    injection Hs as <-. simpl. rewrite !nth_rescale by assumption.
    pose proof (amax_amin_order v mn mx Hmx Hmn) as Hle.
    split; [intros ->; reflexivity|].
    intros Hlt. apply rescale_strict; lra.
Qed.

(** C8. With exactly one numeric feature the scores are monotonic in the
    filled values of that column: equal values get equal scores, a
    smaller value gets a smaller score, and so a strictly increasing
    column gets strictly increasing scores. *)
Theorem compute_index_single_feature_monotone (df : DataFrame) features cells :
  well_formed df ->
  selects df (resolve_features df features) [cells] ->
  index df <> [] ->
  exists s,
    compute_index svd_axis df features = Ok s
    /\ length (values s) = length (filled cells)
    /\ (forall i j, (i < length (filled cells))%nat -> (j < length (filled cells))%nat ->
          nth i (filled cells) 0 = nth j (filled cells) 0 ->
          nth i (values s) 0 = nth j (values s) 0)
    /\ (forall i j, (i < length (filled cells))%nat -> (j < length (filled cells))%nat ->
          nth i (filled cells) 0 < nth j (filled cells) 0 ->
          nth i (values s) 0 < nth j (values s) 0)
    /\ ((forall i j, (i < j)%nat -> (j < length (filled cells))%nat ->
           nth i (filled cells) 0 < nth j (filled cells) 0) ->
        forall i j, (i < j)%nat -> (j < length (values s))%nat ->
           nth i (values s) 0 < nth j (values s) 0).
Proof.
  intros Hwf Hsel Hrows.
  assert (Hne : [cells] <> []) by discriminate.
  pose proof (scores_of_length df _ _ Hwf Hsel Hne) as Hlen.
  rewrite scores_of_single in Hlen.
  assert (Hz : length (standardize (filled cells)) = length (filled cells))
    by apply standardize_length.
  destruct (normalize_total (standardize (filled cells)) (index df)) as [s Hs];
    [intros E; rewrite E in Hlen; destruct (index df); [congruence | discriminate]
    | exact Hlen |].
  destruct (normalize_shape _ _ _ Hs) as [_ Hvals].
  assert (Hpos : forall i j,
             (i < length (filled cells))%nat -> (j < length (filled cells))%nat ->
             (nth i (filled cells) 0 = nth j (filled cells) 0 ->
              nth i (values s) 0 = nth j (values s) 0)
             /\ (nth i (filled cells) 0 < nth j (filled cells) 0 ->
                 nth i (values s) 0 < nth j (values s) 0)).
  { intros i j Hi Hj.
    destruct (normalize_order _ _ _ Hlen Hs i j) as [Htie Hstrict];
      [rewrite Hz; exact Hi | rewrite Hz; exact Hj |].
    split; intros H.
    - apply Htie, standardize_tie; assumption.
    - apply Hstrict, standardize_strict; assumption. }
  exists s.
  rewrite (compute_index_selected df features _ Hwf Hsel Hne Hrows), scores_of_single.
  split; [exact Hs|]. split; [congruence|].
  split; [intros i j Hi Hj; apply (Hpos i j Hi Hj)|].
  split; [intros i j Hi Hj; apply (Hpos i j Hi Hj)|].
  intros Hinc i j Hij Hj.
  assert (Hj' : (j < length (filled cells))%nat) by (rewrite <- Hz, Hlen, <- Hvals; exact Hj).
  apply (Hpos i j); [lia | exact Hj' | apply Hinc; assumption].
Qed.

(** ** Two features, one of zero variance *)

Lemma pca_zero_first (c : list R) :
  ~ constant_column c ->
  first_principal_axis (center [repeat 0 (length c); standardize c])
    (svd_axis (center [repeat 0 (length c); standardize c])) ->
  PCA_fit_transform svd_axis [repeat 0 (length c); standardize c] = standardize c.
Proof.
  intros Hnc Hax. unfold PCA_fit_transform.
  rewrite center_pair_zero_first in *.
  rewrite (axis_zero_first _ _ _ (standardize_not_constant c Hnc) Hax).
  simpl n_samples. rewrite repeat_length, <- (standardize_length c).
  etransitivity; [|apply map_nth_seq_id].
  apply map_ext. intros i. simpl row. rewrite dot_pair, nth_repeat_zero. ring.
Qed.

Lemma pca_zero_second (c : list R) :
  ~ constant_column c ->
  first_principal_axis (center [standardize c; repeat 0 (length c)])
    (svd_axis (center [standardize c; repeat 0 (length c)])) ->
  PCA_fit_transform svd_axis [standardize c; repeat 0 (length c)] = standardize c.
Proof.
  intros Hnc Hax. unfold PCA_fit_transform.
  rewrite center_pair_zero_second in *.
  rewrite (axis_zero_second _ _ _ (standardize_length c)
             (standardize_not_constant c Hnc) Hax).
  simpl n_samples.
  etransitivity; [|apply map_nth_seq_id].
  apply map_ext. intros i. simpl row. rewrite dot_pair, nth_repeat_zero. ring.
Qed.

Lemma standardize_filled_constant (cells : list (option R)) :
  constant_column (filled cells) ->
  standardize (filled cells) = repeat 0 (length cells).
Proof.
  intros [a Ha]. rewrite (constant_repeat a _ Ha), standardize_constant.
  rewrite filled_length. reflexivity.
Qed.

Lemma same_rank_refl (u : list R) : same_rank u u.
Proof. split; [reflexivity | intros; tauto]. Qed.

(** C4. Two selected features, one of zero variance and one varying,
    in either order: when the decomposition returns a first principal
    axis of the centred matrix, [compute_index] ranks the rows as it does
    on the varying column alone (the two score vectors are even
    equal). *)
Theorem compute_index_zero_variance_pair
  (df : DataFrame) features single cellss ca cb :
  well_formed df ->
  selects df (resolve_features df features) cellss ->
  cellss = [ca; cb] \/ cellss = [cb; ca] ->
  selects df single [cb] ->
  constant_column (filled ca) ->
  ~ constant_column (filled cb) ->
  first_principal_axis (center (map standardize (map filled cellss)))
    (svd_axis (center (map standardize (map filled cellss)))) ->
  exists s2 s1,
    compute_index svd_axis df features = Ok s2
    /\ compute_index svd_axis df (Some single) = Ok s1
    /\ same_rank (values s2) (values s1)
    /\ values s2 = values s1.
Proof.
  intros Hwf Hsel Hshape Hsingle Hca Hcb Hax.
  assert (Hrows : index df <> []).
  { intros E. apply Hcb. exists 0. intros x Hx.
    pose proof (selects_lengths df _ _ Hwf Hsingle) as Hl.
    inversion Hl as [|? ? Hlen _]; subst. rewrite E in Hlen.
    rewrite <- filled_length in Hlen.
    destruct (filled cb); [destruct Hx | discriminate]. }
  assert (Hne1 : [cb] <> []) by discriminate.
  pose proof (scores_of_length df _ _ Hwf Hsingle Hne1) as Hlen1.
  rewrite scores_of_single in Hlen1.
  destruct (normalize_total (standardize (filled cb)) (index df)) as [s Hs];
    [intros E; rewrite E in Hlen1; destruct (index df); [congruence | discriminate]
    | exact Hlen1 |].
  assert (Hpair : scores_of svd_axis cellss = standardize (filled cb)).
  { pose proof (selects_lengths df _ _ Hwf Hsel) as Hl.
    rewrite Forall_forall in Hl.
    assert (Hlab : length ca = length (filled cb)).
    { rewrite filled_length.
      rewrite (Hl ca), (Hl cb); [reflexivity | |];
        destruct Hshape as [-> | ->]; simpl; auto. }
    unfold scores_of.
    destruct Hshape as [-> | ->]; simpl map in *; cbn [length Nat.eqb];
      rewrite (standardize_filled_constant ca Hca), Hlab in *.
    - apply pca_zero_first; assumption.
    - apply pca_zero_second; assumption. }
  assert (Hne2 : cellss <> []) by (destruct Hshape as [-> | ->]; discriminate).
  exists s, s.
  rewrite (compute_index_selected df features _ Hwf Hsel Hne2 Hrows), Hpair.
  rewrite (compute_index_selected df (Some single) [cb] Hwf Hsingle Hne1 Hrows).
  rewrite scores_of_single.
  repeat split; try assumption; try reflexivity; intros; tauto.
Qed.

(** ** Scenario A *)

Lemma scenario_A_well_formed : well_formed scenario_A.
Proof.
  split; simpl.
  - repeat constructor.
  - repeat constructor. simpl. tauto.
Qed.

Lemma scenario_A_selects :
  selects scenario_A (resolve_features scenario_A None)
    [[Some 10; Some 20; Some 30]].
Proof. repeat constructor. Qed.

(** C3 (amended). On the column [10, 20, 30] the standardised column is
    [-sqrt(3/2), 0, sqrt(3/2)] (population standard deviation) and
    [compute_index] returns [0, 1/2, 1]. *)
Theorem compute_index_scenario_A :
  StandardScaler_fit_transform
    (map (fillna 0) [Numeric [Some 10; Some 20; Some 30]])
  = Ok [[- sqrt (3 / 2); 0; sqrt (3 / 2)]]
  /\ compute_index svd_axis scenario_A None
     = Ok (mkSeries [0; 1 / 2; 1] [0; 1; 2]%Z).
Proof.
  assert (Ha : 0 < sqrt (3 / 2)) by (apply sqrt_lt_R0; lra).
  split.
  - change [Numeric [Some 10; Some 20; Some 30]]
      with (map Numeric [[Some 10; Some 20; Some 30]]).
    rewrite (fit_transform_selected scenario_A _ _ scenario_A_well_formed
               scenario_A_selects); [|discriminate|discriminate].
    simpl. rewrite standardize_10_20_30. reflexivity.
  - rewrite (compute_index_selected scenario_A None _ scenario_A_well_formed
               scenario_A_selects); [|discriminate|discriminate].
    rewrite scores_of_single. simpl filled. rewrite standardize_10_20_30.
    rewrite (normalize_regular _ _ (- sqrt (3 / 2)) (sqrt (3 / 2))).
    + unfold rescale. cbn [map].
      replace ((- sqrt (3 / 2) - - sqrt (3 / 2)) / (sqrt (3 / 2) - - sqrt (3 / 2)))
        with 0 by (field; lra).
      replace ((0 - - sqrt (3 / 2)) / (sqrt (3 / 2) - - sqrt (3 / 2)))
        with (1 / 2) by (field; lra).
      replace ((sqrt (3 / 2) - - sqrt (3 / 2)) / (sqrt (3 / 2) - - sqrt (3 / 2)))
        with 1 by (field; lra).
      reflexivity.
    + apply amax_intro; simpl; [tauto|]. intros y [<-|[<-|[<-|[]]]]; lra.
    + apply amin_intro; simpl; [tauto|]. intros y [<-|[<-|[<-|[]]]]; lra.
    + lra.
    + reflexivity.
Qed.

End Properties.

(** C9. Rescaling is idempotent on a score vector whose maximum exceeds
    its minimum: the rescaled vector has minimum 0 and maximum 1, and
    rescaling it again returns it unchanged. *)
Theorem normalize_idempotent (v : list R) (idx : list Z) (mx mn : R) :
  amax v = Ok mx -> amin v = Ok mn -> mn < mx -> length v = length idx ->
  normalize v idx = Ok (mkSeries (rescale mn mx v) idx)
  /\ amax (rescale mn mx v) = Ok 1
  /\ amin (rescale mn mx v) = Ok 0
  /\ normalize (rescale mn mx v) idx = Ok (mkSeries (rescale mn mx v) idx).
Proof.
  intros Hmx Hmn Hlt Hlen.
  pose proof (amax_rescale v mn mx Hmx Hmn Hlt) as Hmx'.
  pose proof (amin_rescale v mn mx Hmx Hmn Hlt) as Hmn'.
  split; [apply normalize_regular; (lra || assumption)|].
  split; [exact Hmx'|]. split; [exact Hmn'|].
  rewrite (normalize_regular _ idx 0 1 Hmx' Hmn').
  - rewrite rescale_unit. reflexivity.
  - lra.
  - rewrite rescale_length. exact Hlen.
Qed.

(** * The scenarios of the specification, as instances *)

Lemma scenario_B_well_formed : well_formed scenario_B.
Proof.
  split; simpl.
  - repeat constructor.
  - repeat constructor. simpl. tauto.
Qed.

Lemma scenario_B_selects :
  selects scenario_B (resolve_features scenario_B None) [[Some 5; Some 5; Some 5]].
Proof. repeat constructor. Qed.

Lemma scenario_B_constant : constant_column (filled [Some 5; Some 5; Some 5]).
Proof. exists 5. simpl. intros x [<-|[<-|[<-|[]]]]; reflexivity. Qed.

Lemma scenario_D_well_formed : well_formed scenario_D.
Proof.
  split; simpl.
  - repeat constructor.
  - repeat constructor; simpl; [|tauto].
    intros [H|[]]. discriminate H.
Qed.

Lemma scenario_D_selects :
  selects scenario_D (resolve_features scenario_D None)
    [[Some 5; Some 5]; [Some 1; Some 3]].
Proof. repeat constructor. Qed.

Lemma scenario_D_selects_single :
  selects scenario_D ["populacao"%string] [[Some 1; Some 3]].
Proof. repeat constructor. Qed.

Lemma scenario_D_constant : constant_column (filled [Some 5; Some 5]).
Proof. exists 5. simpl. intros x [<-|[<-|[]]]; reflexivity. Qed.

Lemma scenario_D_varying : ~ constant_column (filled [Some 1; Some 3]).
Proof.
  intros [a Ha]. simpl in Ha.
  pose proof (Ha 1 (or_introl eq_refl)).
  pose proof (Ha 3 (or_intror (or_introl eq_refl))). lra.
Qed.

Lemma scenario_D_axis :
  first_principal_axis
    (center (map standardize (map filled [[Some 5; Some 5]; [Some 1; Some 3]])))
    (axis_backwards
       (center (map standardize (map filled [[Some 5; Some 5]; [Some 1; Some 3]])))).
Proof.
  unfold axis_backwards. cbn [map].
  rewrite (standardize_filled_constant [Some 5; Some 5] scenario_D_constant).
  change (length [Some 5; Some 5]) with (length (filled [Some 1; Some 3])).
  rewrite center_pair_zero_first. apply axis_zero_first_exists.
Qed.

Lemma amax_scenario_A :
  amax (scores_of axis_backwards [[Some 10; Some 20; Some 30]]) = Ok (sqrt (3 / 2)).
Proof.
  assert (Ha : 0 < sqrt (3 / 2)) by (apply sqrt_lt_R0; lra).
  rewrite scores_of_single. simpl filled. rewrite standardize_10_20_30.
  apply amax_intro; simpl; [tauto|]. intros y [<-|[<-|[<-|[]]]]; lra.
Qed.

Lemma amin_scenario_A :
  amin (scores_of axis_backwards [[Some 10; Some 20; Some 30]]) = Ok (- sqrt (3 / 2)).
Proof.
  assert (Ha : 0 < sqrt (3 / 2)) by (apply sqrt_lt_R0; lra).
  rewrite scores_of_single. simpl filled. rewrite standardize_10_20_30.
  apply amin_intro; simpl; [tauto|]. intros y [<-|[<-|[<-|[]]]]; lra.
Qed.

(** C1, as stated, fails: a table without rows that has a numeric column
    makes [compute_index] raise ValueError. *)
Lemma compute_index_raises_without_rows :
  well_formed empty_table
  /\ select_dtypes_number empty_table = ["populacao"%string]
  /\ forall svd_axis, compute_index svd_axis empty_table None = Raise ValueError.
Proof.
  split; [|split].
  - split; simpl; repeat constructor. simpl. tauto.
  - reflexivity.
  - intros svd_axis. reflexivity.
Qed.

(** C3, as stated, fails: the standardised column is not [-1, 0, 1]. *)
Lemma scenario_A_standardized_not_unit_steps :
  StandardScaler_fit_transform
    (map (fillna 0) [Numeric [Some 10; Some 20; Some 30]])
  <> Ok [[-1; 0; 1]].
Proof.
  change [Numeric [Some 10; Some 20; Some 30]]
    with (map Numeric [[Some 10; Some 20; Some 30]]).
  rewrite (fit_transform_selected scenario_A _ _ scenario_A_well_formed
             scenario_A_selects); [|discriminate|discriminate].
  simpl. rewrite standardize_10_20_30. intros H. injection H as _ H.
  pose proof (sqrt_sqrt (3 / 2)) as Hsq. rewrite H in Hsq. lra.
Qed.


(** ** Instances of the theorems *)

Lemma compute_index_defined_scenario_A :
  well_formed scenario_A
  /\ exists s, compute_index axis_backwards scenario_A None = Ok s.
Proof.
  split; [exact scenario_A_well_formed|].
  apply (compute_index_defined axis_backwards scenario_A scenario_A_well_formed).
  left. discriminate.
Defined.

Lemma compute_index_rows_scenario_A :
  well_formed scenario_A
  /\ exists s, compute_index axis_backwards scenario_A None = Ok s
               /\ series_index s = [0; 1; 2]%Z
               /\ length (values s) = 3%nat.
Proof.
  split; [exact scenario_A_well_formed|].
  destruct (compute_index_rows axis_backwards scenario_A None scenario_A_well_formed)
    as [_ H].
  destruct (H _ scenario_A_selects) as [s [Hs [Hi [Hv _]]]]; [discriminate|].
  exists s. auto.
Defined.

Lemma compute_index_no_features_scenario_C :
  (forall nc, In nc (columns scenario_C) -> is_number (snd nc) = false)
  /\ exists s, compute_index axis_backwards scenario_C None = Ok s
               /\ series_index s = [0; 1; 2]%Z
               /\ values s = [0; 0; 0].
Proof.
  assert (H : forall nc, In nc (columns scenario_C) -> is_number (snd nc) = false)
    by (intros nc [<-|[]]; reflexivity).
  split; [exact H|].
  apply (compute_index_no_features axis_backwards scenario_C None).
  left. split; [reflexivity | exact H].
Defined.


Lemma compute_index_degenerate_guard_scenario_B :
  well_formed scenario_B
  /\ compute_index axis_backwards scenario_B None
     = Ok (mkSeries [0; 0; 0] [0; 1; 2]%Z).
Proof.
  split; [exact scenario_B_well_formed|].
  destruct (compute_index_degenerate_guard axis_backwards scenario_B None
              [[Some 5; Some 5; Some 5]]
              scenario_B_well_formed scenario_B_selects)
    as [mx [mn [_ [_ [_ [Hdeg [_ [_ Hconst]]]]]]]]; [discriminate | discriminate |].
  apply Hdeg, Hconst. intros cells [<-|[]]. exact scenario_B_constant.
Defined.

Lemma compute_index_single_feature_monotone_scenario_A :
  well_formed scenario_A
  /\ exists s, compute_index axis_backwards scenario_A None = Ok s
               /\ nth 0 (values s) 0 < nth 1 (values s) 0
               /\ nth 1 (values s) 0 < nth 2 (values s) 0.
Proof.
  split; [exact scenario_A_well_formed|].
  destruct (compute_index_single_feature_monotone axis_backwards scenario_A None
              [Some 10; Some 20; Some 30]
              scenario_A_well_formed scenario_A_selects)
    as [s [Hs [_ [_ [Hlt _]]]]]; [discriminate|].
  exists s. split; [exact Hs|].
  split; apply Hlt; simpl; try lia; lra.
Defined.

Lemma normalize_idempotent_2_4_6 :
  amax [2; 4; 6] = Ok 6 /\ amin [2; 4; 6] = Ok 2 /\ 2 < 6
  /\ normalize (rescale 2 6 [2; 4; 6]) [0; 1; 2]%Z
     = Ok (mkSeries (rescale 2 6 [2; 4; 6]) [0; 1; 2]%Z).
Proof.
  assert (Hmx : amax [2; 4; 6] = Ok 6)
    by (apply amax_intro; simpl; [tauto | intros y [<-|[<-|[<-|[]]]]; lra]).
  assert (Hmn : amin [2; 4; 6] = Ok 2)
    by (apply amin_intro; simpl; [tauto | intros y [<-|[<-|[<-|[]]]]; lra]).
  split; [exact Hmx|]. split; [exact Hmn|]. split; [lra|].
  apply (normalize_idempotent [2; 4; 6] [0; 1; 2]%Z 6 2 Hmx Hmn); [lra | reflexivity].
Defined.

Lemma compute_index_attains_endpoints_scenario_A :
  well_formed scenario_A
  /\ exists s, compute_index axis_backwards scenario_A None = Ok s
               /\ (exists i, (i < 3)%nat /\ nth i (values s) 0 = 0)
               /\ (exists j, (j < 3)%nat /\ nth j (values s) 0 = 1).
Proof.
  split; [exact scenario_A_well_formed|].
  assert (Ha : 0 < sqrt (3 / 2)) by (apply sqrt_lt_R0; lra).
  destruct (compute_index_attains_endpoints axis_backwards scenario_A None
              [[Some 10; Some 20; Some 30]] (sqrt (3 / 2)) (- sqrt (3 / 2))
              scenario_A_well_formed scenario_A_selects)
    as [s [Hs [[i [Hi [_ Hi0]]] [j [Hj [_ Hj1]]]]]];
    [discriminate | discriminate | exact amax_scenario_A | exact amin_scenario_A | lra |].
  exists s. split; [exact Hs|]. split; [exists i | exists j]; auto.
Defined.

Lemma compute_index_zero_variance_pair_scenario_D :
  well_formed scenario_D
  /\ constant_column (filled [Some 5; Some 5])
  /\ ~ constant_column (filled [Some 1; Some 3])
  /\ exists s2 s1,
       compute_index axis_backwards scenario_D None = Ok s2
       /\ compute_index axis_backwards scenario_D (Some ["populacao"%string]) = Ok s1
       /\ same_rank (values s2) (values s1).
Proof.
  split; [exact scenario_D_well_formed|]. split; [exact scenario_D_constant|].
  split; [exact scenario_D_varying|].
  destruct (compute_index_zero_variance_pair axis_backwards scenario_D None
              ["populacao"%string] [[Some 5; Some 5]; [Some 1; Some 3]]
              [Some 5; Some 5] [Some 1; Some 3]
              scenario_D_well_formed scenario_D_selects (or_introl eq_refl)
              scenario_D_selects_single scenario_D_constant scenario_D_varying
              scenario_D_axis)
    as [s2 [s1 [H2 [H1 [Hr _]]]]].
  exists s2, s1. auto.
Defined.

(** * Further properties *)

(** ** Range of the scores *)

Lemma normalize_range (v : list R) (idx : list Z) (s : Series) :
  normalize v idx = Ok s -> Forall (fun y => 0 <= y <= 1) (values s).
Proof.
  unfold normalize.
  destruct (amax v) as [mx|e] eqn:Hmx; simpl; [|discriminate].
  destruct (amin v) as [mn|e] eqn:Hmn; simpl; [|discriminate].
  destruct (Req_dec_T mx mn) as [_|Hne].
  - intros H. injection H as <-. simpl. apply Forall_forall.
    intros y Hy. apply repeat_spec in Hy. lra.
  - unfold Series_array. destruct (Nat.eqb _ _); [|discriminate].
    intros H. injection H as <-. simpl. apply Forall_forall.
    intros y Hy. unfold rescale in Hy. apply in_map_iff in Hy as [x [<- Hx]].
    pose proof (amax_amin_order v mn mx Hmx Hmn) as Hle.
    destruct (amax_spec _ _ Hmx) as [_ Hub]. destruct (amin_spec _ _ Hmn) as [_ Hlb].
    assert (Hlt : mn < mx) by lra.
    pose proof (rescale_monotone mn mx mn x Hlt (Hlb x Hx)) as H0.
    pose proof (rescale_monotone mn mx x mx Hlt (Hub x Hx)) as H1.
    replace ((mn - mn) / (mx - mn)) with 0 in H0 by (field; lra).
    replace ((mx - mn) / (mx - mn)) with 1 in H1 by (field; lra).
    lra.
Qed.

Lemma compute_index_values_bounded svd_axis (df : DataFrame) features (s : Series) :
  compute_index svd_axis df features = Ok s ->
  Forall (fun y => 0 <= y <= 1) (values s).
Proof.
  unfold compute_index.
  destruct (Nat.eqb (length (resolve_features df features)) 0).
  - intros H. injection H as <-. simpl. apply Forall_forall.
    intros y Hy. apply repeat_spec in Hy. lra.
  - destruct (score_vector svd_axis df (resolve_features df features)) as [sc|e];
      simpl; [|discriminate].
    apply normalize_range.
Qed.

(** X1. Every score that [compute_index] returns lies in [0,1]; and on a
    table with at least one row whose features are numeric columns it
    does return such scores. *)
Theorem compute_index_range svd_axis (df : DataFrame) features :
  (forall s, compute_index svd_axis df features = Ok s ->
             Forall (fun y => 0 <= y <= 1) (values s))
  /\ (forall cellss,
        well_formed df ->
        selects df (resolve_features df features) cellss -> index df <> [] ->
        exists s, compute_index svd_axis df features = Ok s
                  /\ Forall (fun y => 0 <= y <= 1) (values s)).
Proof.
  split; [intros s; apply compute_index_values_bounded|].
  intros cellss Hwf Hsel Hrows.
  destruct (compute_index_returns svd_axis df features cellss Hwf Hsel Hrows)
    as [s [Hs _]].
  exists s. split; [exact Hs | eapply compute_index_values_bounded, Hs].
Qed.

(** ** A feature that is not a column *)

Lemma getitem_missing (df : DataFrame) (features : list string) (f : string) :
  In f features -> lookup f (columns df) = None ->
  getitem df features = Raise KeyError.
Proof.
  unfold getitem. induction features as [|g features IH]; [intros []|].
  intros Hin Hf. simpl.
  destruct (lookup g (columns df)) as [c|] eqn:Hg; simpl; [|reflexivity].
  destruct Hin as [->|Hin]; [congruence|].
  rewrite (IH Hin Hf). reflexivity.
Qed.

(** X2. A feature list that names a column the table does not have makes
    [compute_index] raise KeyError, whatever the other features and
    rows. *)
Theorem compute_index_missing_column svd_axis (df : DataFrame) features (f : string) :
  In f features -> lookup f (columns df) = None ->
  compute_index svd_axis df (Some features) = Raise KeyError.
Proof.
  intros Hin Hf. rewrite compute_index_features.
  - simpl. unfold score_vector. rewrite (getitem_missing df features f Hin Hf).
    reflexivity.
  - simpl. intros ->. destruct Hin.
Qed.

(** ** Tables with the same standardised matrix *)

(** [compute_index] is determined by the index and the standardised
    matrix of the selected cells. *)
Lemma compute_index_same_matrix svd_axis (df1 df2 : DataFrame) f1 f2 cs1 cs2 :
  well_formed df1 -> well_formed df2 -> index df1 = index df2 ->
  selects df1 (resolve_features df1 f1) cs1 ->
  selects df2 (resolve_features df2 f2) cs2 ->
  map standardize (map filled cs1) = map standardize (map filled cs2) ->
  compute_index svd_axis df1 f1 = compute_index svd_axis df2 f2.
Proof.
  intros Hwf1 Hwf2 Hidx Hs1 Hs2 HX.
  assert (Hlen : length cs1 = length cs2).
  { apply (f_equal (@length _)) in HX. rewrite !length_map in HX. exact HX. }
  destruct cs1 as [|c1 cs1]; destruct cs2 as [|c2 cs2]; try discriminate.
  - apply selects_length in Hs1, Hs2.
    simpl in Hs1, Hs2.
    rewrite !compute_index_empty_features, Hidx; [reflexivity| |];
      apply length_zero_iff_nil; auto.
  - assert (Hne1 : c1 :: cs1 <> []) by discriminate.
    assert (Hne2 : c2 :: cs2 <> []) by discriminate.
    assert (Hr1 : resolve_features df1 f1 <> []).
    { intros E. apply selects_length in Hs1. rewrite E in Hs1. discriminate. }
    assert (Hr2 : resolve_features df2 f2 <> []).
    { intros E. apply selects_length in Hs2. rewrite E in Hs2. discriminate. }
    destruct (index df1) as [|l idx] eqn:Hi1.
    + rewrite !compute_index_features by assumption.
      rewrite (score_vector_no_rows svd_axis df1 _ _ Hwf1 Hs1 Hi1).
      rewrite (score_vector_no_rows svd_axis df2 _ _ Hwf2 Hs2); [reflexivity|congruence].
    + rewrite (compute_index_selected svd_axis df1 f1 _ Hwf1 Hs1 Hne1)
        by (rewrite Hi1; discriminate).
      rewrite (compute_index_selected svd_axis df2 f2 _ Hwf2 Hs2 Hne2)
        by (rewrite <- Hidx; discriminate).
      unfold scores_of. rewrite HX, Hi1, Hidx. reflexivity.
Qed.

(** ** Object columns *)

Lemma filter_numeric_idempotent (cols : list (string * column)) :
  filter (fun nc => is_number (snd nc)) (filter (fun nc => is_number (snd nc)) cols)
  = filter (fun nc => is_number (snd nc)) cols.
Proof.
  induction cols as [|nc cols IH]; [reflexivity|]. simpl.
  destruct (is_number (snd nc)) eqn:E; simpl; [rewrite E, IH|]; auto.
Qed.

Lemma numeric_cells_filter (cols : list (string * column)) :
  numeric_cells (filter (fun nc => is_number (snd nc)) cols) = numeric_cells cols.
Proof.
  unfold numeric_cells. induction cols as [|[n c] cols IH]; [reflexivity|].
  destruct c as [cells|cells]; simpl; [rewrite IH|]; auto.
Qed.

Lemma numeric_names_distinct (cols : list (string * column)) :
  NoDup (map fst cols) ->
  NoDup (map fst (filter (fun nc => is_number (snd nc)) cols)).
Proof.
  intros Hnd. induction cols as [|[n c] cols IH]; simpl; [constructor|].
  inversion Hnd as [|? ? Hfresh Hrest]; subst.
  destruct (is_number c); simpl; [|apply IH, Hrest].
  constructor; [|apply IH, Hrest].
  intros Hin. apply Hfresh. apply in_map_iff in Hin as [nc [Hname Hin]].
  apply filter_In in Hin as [Hin _]. apply in_map_iff. exists nc. auto.
Qed.

Lemma drop_object_columns_well_formed (df : DataFrame) :
  well_formed df -> well_formed (drop_object_columns df).
Proof.
  intros [Hlen Hnd]. split; simpl.
  - rewrite Forall_forall in *. intros nc Hin.
    apply filter_In in Hin as [Hin _]. apply Hlen, Hin.
  - apply numeric_names_distinct, Hnd.
Qed.

(** X6. With the default features, the object columns of the table have
    no influence: dropping them gives the same outcome. *)
Theorem compute_index_ignores_object_columns svd_axis (df : DataFrame) :
  well_formed df ->
  compute_index svd_axis (drop_object_columns df) None
  = compute_index svd_axis df None.
Proof.
  intros Hwf.
  pose proof (drop_object_columns_well_formed df Hwf) as Hwf'.
  apply (compute_index_same_matrix svd_axis _ _ None None
           (numeric_cells (columns df)) (numeric_cells (columns df)));
    try assumption; try reflexivity.
  - pose proof (select_dtypes_number_selects _ Hwf') as H.
    simpl in H. rewrite numeric_cells_filter in H. exact H.
  - apply select_dtypes_number_selects, Hwf.
Qed.

(** ** Sign of the singular vector *)

Lemma sign_opp (x : R) : sign (- x) = - sign x.
Proof.
  unfold sign.
  destruct (Rlt_dec 0 (- x)); destruct (Rlt_dec (- x) 0);
    destruct (Rlt_dec 0 x); destruct (Rlt_dec x 0); lra.
Qed.

Lemma nth_map_opp (v : list R) (k : nat) : nth k (map Ropp v) 0 = - nth k v 0.
Proof.
  rewrite <- Ropp_0 at 1. apply (map_nth Ropp).
Qed.

Lemma argmax_abs_opp (v : list R) : argmax_abs (map Ropp v) = argmax_abs v.
Proof.
  induction v as [|x v IH]; [reflexivity|].
  destruct v as [|y v]; [reflexivity|].
  change (map Ropp (x :: y :: v)) with (- x :: map Ropp (y :: v)).
  cbn [argmax_abs]. change (- y :: map Ropp v) with (map Ropp (y :: v)).
  rewrite IH, nth_map_opp, !Rabs_Ropp. reflexivity.
Qed.

Lemma svd_flip_opp (v : list R) : svd_flip (map Ropp v) = svd_flip v.
Proof.
  unfold svd_flip. rewrite argmax_abs_opp, nth_map_opp, sign_opp, map_map.
  apply map_ext. intros a. ring.
Qed.

Lemma PCA_fit_transform_opp svd_axis (X : matrix) :
  PCA_fit_transform (opposite_axis svd_axis) X = PCA_fit_transform svd_axis X.
Proof.
  unfold PCA_fit_transform, opposite_axis. rewrite svd_flip_opp. reflexivity.
Qed.

(** X7. The outcome does not depend on the sign of the vector the
    decomposition returns: [svd_flip] orients it. *)
Theorem compute_index_sign_independent svd_axis (df : DataFrame) features :
  compute_index (opposite_axis svd_axis) df features
  = compute_index svd_axis df features.
Proof.
  unfold compute_index.
  destruct (Nat.eqb (length (resolve_features df features)) 0); [reflexivity|].
  f_equal. unfold score_vector.
  destruct (getitem df (resolve_features df features)) as [X0|e]; [|reflexivity].
  simpl. destruct (StandardScaler_fit_transform (map (fillna 0) X0)) as [Xs|e];
    [|reflexivity].
  simpl. rewrite PCA_fit_transform_opp. reflexivity.
Qed.

Import Preprocess IndicesMain.

(** ** Renaming the columns *)

Lemma select_dtypes_number_rename mapper (df : DataFrame) :
  select_dtypes_number (rename mapper df)
  = map (rename_label mapper) (select_dtypes_number df).
Proof.
  unfold select_dtypes_number, rename. simpl.
  induction (columns df) as [|[n c] cols IH]; [reflexivity|]. simpl.
  destruct (is_number c); simpl; [rewrite IH|]; auto.
Qed.

Lemma numeric_cells_rename mapper (df : DataFrame) :
  numeric_cells (columns (rename mapper df)) = numeric_cells (columns df).
Proof.
  unfold numeric_cells, rename. simpl.
  induction (columns df) as [|[n c] cols IH]; [reflexivity|]. simpl.
  rewrite IH. reflexivity.
Qed.

Lemma compute_index_rename svd_axis mapper (df : DataFrame) :
  well_formed df -> well_formed (rename mapper df) ->
  compute_index svd_axis (rename mapper df) None = compute_index svd_axis df None.
Proof.
  intros Hwf Hwf'.
  apply (compute_index_same_matrix svd_axis _ _ None None
           (numeric_cells (columns df)) (numeric_cells (columns df)));
    try assumption; try reflexivity.
  - rewrite <- (numeric_cells_rename mapper df).
    apply select_dtypes_number_selects, Hwf'.
  - apply select_dtypes_number_selects, Hwf.
Qed.

Lemma renamed_labels_distinct (f : string -> string) (names : list string) :
  NoDup names ->
  (forall x y, In x names -> In y names -> f x = f y -> x = y) ->
  NoDup (map f names).
Proof.
  intros Hnd. induction names as [|a names IH]; intros Hinj; simpl; [constructor|].
  inversion Hnd as [|? ? Hfresh Hrest]; subst.
  constructor.
  - intros Hin. apply in_map_iff in Hin as [x [Hfx Hx]].
    apply Hfresh. rewrite <- (Hinj x a); auto; [right; exact Hx | left; reflexivity].
  - apply IH; [exact Hrest|]. intros x y Hx Hy. apply Hinj; right; assumption.
Qed.

Lemma ibge_label_cases (n : string) :
  (n = "nome"%string
   /\ rename_label [("nome"%string, "municipio"%string);
                    ("id"%string, "municipio_id"%string)] n = "municipio"%string)
  \/ (n = "id"%string
      /\ rename_label [("nome"%string, "municipio"%string);
                       ("id"%string, "municipio_id"%string)] n = "municipio_id"%string)
  \/ rename_label [("nome"%string, "municipio"%string);
                   ("id"%string, "municipio_id"%string)] n = n.
Proof.
  simpl. destruct (String.eqb n "nome") eqn:E1.
  - left. apply String.eqb_eq in E1. auto.
  - destruct (String.eqb n "id") eqn:E2.
    + right; left. apply String.eqb_eq in E2. auto.
    + right; right. reflexivity.
Qed.

Lemma normalize_ibge_municipios_well_formed (df : DataFrame) :
  well_formed df ->
  ~ In "municipio"%string (map fst (columns df)) ->
  ~ In "municipio_id"%string (map fst (columns df)) ->
  well_formed (normalize_ibge_municipios df).
Proof.
  intros [Hlen Hnd] H1 H2. unfold normalize_ibge_municipios, rename.
  split; cbn [index columns].
  - rewrite Forall_forall in *. intros nc Hin.
    apply in_map_iff in Hin as [nc0 [<- Hin]]. simpl. apply Hlen, Hin.
  - replace (map fst (map (fun nc => (rename_label
                 [("nome"%string, "municipio"%string);
                  ("id"%string, "municipio_id"%string)] (fst nc), snd nc)) (columns df)))
      with (map (rename_label [("nome"%string, "municipio"%string);
                               ("id"%string, "municipio_id"%string)])
              (map fst (columns df)))
      by (rewrite !map_map; reflexivity).
    apply renamed_labels_distinct; [exact Hnd|].
    intros x y Hx Hy.
    destruct (ibge_label_cases x) as [[-> ->]|[[-> ->]| ->]];
      destruct (ibge_label_cases y) as [[-> ->]|[[-> ->]| ->]];
      intros E; try reflexivity; try discriminate E; subst;
      try reflexivity; contradiction.
Qed.

(** X8. Renaming [nome] and [id] as [normalize_ibge_municipios] does
    keeps a table well formed when the new names are free, and leaves the
    index computed with the default features unchanged. *)
Theorem compute_index_after_normalize_ibge svd_axis (df : DataFrame) :
  well_formed df ->
  ~ In "municipio"%string (map fst (columns df)) ->
  ~ In "municipio_id"%string (map fst (columns df)) ->
  well_formed (normalize_ibge_municipios df)
  /\ compute_index svd_axis (normalize_ibge_municipios df) None
     = compute_index svd_axis df None.
Proof.
  intros Hwf H1 H2.
  pose proof (normalize_ibge_municipios_well_formed df Hwf H1 H2) as Hwf'.
  split; [exact Hwf'|]. apply compute_index_rename; assumption.
Qed.

(** ** The column written by [main] *)

Lemma lookup_set_column_same name c cols :
  lookup name (set_column name c cols) = Some c.
Proof.
  induction cols as [|[n c0] cols IH]; simpl.
  - rewrite String.eqb_refl. reflexivity.
  - destruct (String.eqb name n) eqn:E; simpl.
    + rewrite String.eqb_refl. reflexivity.
    + rewrite E. exact IH.
Qed.

Lemma lookup_set_column_other name c cols n :
  n <> name -> lookup n (set_column name c cols) = lookup n cols.
Proof.
  intros Hne. induction cols as [|[n0 c0] cols IH]; simpl.
  - destruct (String.eqb n name) eqn:E; [apply String.eqb_eq in E; contradiction|].
    reflexivity.
  - destruct (String.eqb name n0) eqn:E; simpl.
    + apply String.eqb_eq in E. subst n0.
      destruct (String.eqb n name) eqn:E'; [apply String.eqb_eq in E'; contradiction|].
      reflexivity.
    + rewrite IH. reflexivity.
Qed.

Lemma set_column_names name c cols :
  (In name (map fst cols) /\ map fst (set_column name c cols) = map fst cols)
  \/ (~ In name (map fst cols)
      /\ map fst (set_column name c cols) = map fst cols ++ [name]).
Proof.
  induction cols as [|[n c0] cols IH]; simpl.
  - right. split; [tauto | reflexivity].
  - destruct (String.eqb name n) eqn:E; simpl.
    + apply String.eqb_eq in E. subst n. left. split; [auto | reflexivity].
    + apply String.eqb_neq in E.
      destruct IH as [[Hin Hm]|[Hnin Hm]]; rewrite Hm.
      * left. split; [auto | reflexivity].
      * right. split; [|reflexivity]. intros [H|H]; [congruence | contradiction].
Qed.

Lemma set_column_well_formed name c (df : DataFrame) :
  well_formed df -> column_length c = length (index df) ->
  well_formed (mkDataFrame (index df) (set_column name c (columns df))).
Proof.
  intros [Hlen Hnd] Hc. split; simpl.
  - clear Hnd. induction (columns df) as [|[n c0] cols IH]; simpl.
    + constructor; [exact Hc | constructor].
    + inversion Hlen as [|? ? H0 Hrest]; subst.
      destruct (String.eqb name n); constructor; auto.
  - destruct (set_column_names name c (columns df)) as [[_ ->]|[Hnin ->]];
      [exact Hnd|].
    apply NoDup_app; [exact Hnd | repeat constructor; intros [] |].
    intros x Hx [<-|[]]. contradiction.
Qed.

(** X9. On a well-formed table with at least one row (or without numeric
    columns) [main] yields a well-formed table with the same index, whose
    column [vuln_overall] holds one score in [0,1] per row; every other
    column is as before. *)
Theorem main_adds_index svd_axis (df : DataFrame) :
  well_formed df ->
  index df <> [] \/ select_dtypes_number df = [] ->
  exists df' scores,
    main svd_axis df = Ok df'
    /\ well_formed df'
    /\ index df' = index df
    /\ lookup "vuln_overall" (columns df') = Some (Numeric (map Some scores))
    /\ length scores = length (index df)
    /\ Forall (fun y => 0 <= y <= 1) scores
    /\ forall n, n <> "vuln_overall"%string ->
                 lookup n (columns df') = lookup n (columns df).
Proof.
  intros Hwf Hdom.
  assert (Hret : exists s, compute_index svd_axis df None = Ok s).
  { destruct Hdom as [Hrows|Hnone].
    - destruct (compute_index_returns svd_axis df None _ Hwf
                  (select_dtypes_number_selects df Hwf) Hrows) as [s [Hs _]].
      exists s. exact Hs.
    - eexists. apply compute_index_empty_features. exact Hnone. }
  destruct Hret as [s Hs].
  destruct (compute_index_shape_of_result svd_axis df None s Hs) as [_ Hlen].
  unfold main. rewrite Hs. simpl.
  eexists. exists (values s). split; [reflexivity|].
  split.
  - apply set_column_well_formed; [exact Hwf|]. simpl. rewrite length_map. exact Hlen.
  - split; [reflexivity|]. simpl.
    split; [apply lookup_set_column_same|].
    split; [exact Hlen|].
    split; [eapply compute_index_values_bounded, Hs|].
    intros n Hn. apply lookup_set_column_other, Hn.
Qed.

Import Extract.

(** ** The synthetic population of the seed *)

Lemma wrap64_small (z : Z) :
  (- 2 ^ 63 <= z < 2 ^ 63)%Z -> wrap64 z = z.
Proof.
  intros H. unfold wrap64. rewrite Z.mod_small; lia.
Qed.

Lemma seed_population_closed (municipio_id : Z) :
  seed_population municipio_id = (municipio_id mod 100000 * 10 + 1000)%Z.
Proof.
  unfold seed_population.
  pose proof (Z.mod_pos_bound municipio_id 100000 ltac:(lia)) as Hm.
  rewrite (wrap64_small (municipio_id mod 100000)) by lia.
  rewrite (wrap64_small (municipio_id mod 100000 * 10)) by lia.
  apply wrap64_small. lia.
Qed.

(** X10. The synthetic population of a municipality is
    [(id mod 100000) * 10 + 1000] without any int64 wrap-around; it lies
    between 1000 and 1000990 and is a multiple of 10. *)
Theorem seed_population_range (municipio_id : Z) :
  seed_population municipio_id = (municipio_id mod 100000 * 10 + 1000)%Z
  /\ (1000 <= seed_population municipio_id <= 1000990)%Z
  /\ (seed_population municipio_id mod 10 = 0)%Z.
Proof.
  rewrite seed_population_closed.
  pose proof (Z.mod_pos_bound municipio_id 100000 ltac:(lia)) as Hm.
  split; [reflexivity|]. split; [lia|].
  replace (municipio_id mod 100000 * 10 + 1000)%Z
    with ((municipio_id mod 100000 + 100) * 10)%Z by ring.
  apply Z.mod_mul. lia.
Qed.

(** X11. Two municipalities get the same synthetic population exactly when
    their identifiers agree modulo 100000. *)
Theorem seed_population_collision (a b : Z) :
  seed_population a = seed_population b <-> (a mod 100000 = b mod 100000)%Z.
Proof.
  rewrite !seed_population_closed. split; intros H; lia.
Qed.

(** ** Records of a SIDRA answer *)

Lemma dict_set_fresh (k v : string) (d : dict) :
  dict_get k d = None -> dict_set k v d = d ++ [(k, v)].
Proof.
  induction d as [|[k0 v0] d IH]; simpl; [reflexivity|].
  destruct (String.eqb k k0); [discriminate|].
  intros H. rewrite (IH H). reflexivity.
Qed.

Lemma dict_get_app_fresh (k k' v : string) (d : dict) :
  k <> k' -> dict_get k (d ++ [(k', v)]) = dict_get k d.
Proof.
  intros Hne. induction d as [|[k0 v0] d IH]; simpl.
  - destruct (String.eqb k k') eqn:E; [apply String.eqb_eq in E; contradiction|].
    reflexivity.
  - destruct (String.eqb k k0); [reflexivity | exact IH].
Qed.

Lemma fold_dict_set_fresh (pairs : list (string * string)) (d : dict) :
  NoDup (map fst pairs) ->
  (forall k, In k (map fst pairs) -> dict_get k d = None) ->
  fold_left (fun d kv => dict_set (fst kv) (snd kv) d) pairs d = d ++ pairs.
Proof.
  revert d. induction pairs as [|[k v] pairs IH]; intros d Hnd Hfresh; simpl.
  - rewrite app_nil_r. reflexivity.
  - inversion Hnd as [|? ? Hnotin Hnd']; subst.
    rewrite (dict_set_fresh k v d) by (apply Hfresh; left; reflexivity).
    rewrite IH; [rewrite <- app_assoc; reflexivity | exact Hnd' |].
    intros k' Hk'. rewrite dict_get_app_fresh.
    + apply Hfresh. right. exact Hk'.
    + intros ->. contradiction.
Qed.

Lemma NoDup_combine_keys (h r : list string) :
  NoDup h -> NoDup (map fst (combine h r)).
Proof.
  revert r. induction h as [|k h IH]; intros r Hnd; simpl; [constructor|].
  destruct r as [|v r]; simpl; [constructor|].
  inversion Hnd as [|? ? Hnotin Hnd']; subst. constructor; [|apply IH, Hnd'].
  intros Hin. apply Hnotin. apply in_map_iff in Hin as [[k' v'] [<- Hin]].
  simpl. eapply in_combine_l, Hin.
Qed.

(** With distinct header entries the record is the zipped list
    itself. *)
Lemma record_distinct_header (header row : item) :
  NoDup (iter header) -> record header row = combine (iter header) (iter row).
Proof.
  intros Hnd. unfold record, dict_of_pairs.
  rewrite fold_dict_set_fresh; [reflexivity | apply NoDup_combine_keys, Hnd | reflexivity].
Qed.

Lemma dict_get_combine (h r : list string) (i : nat) (k v : string) :
  NoDup h -> nth_error h i = Some k -> nth_error r i = Some v ->
  dict_get k (combine h r) = Some v.
Proof.
  revert r i. induction h as [|k0 h IH]; intros r i Hnd Hk Hv.
  - destruct i; discriminate.
  - destruct r as [|v0 r]; [destruct i; discriminate|].
    inversion Hnd as [|? ? Hnotin Hnd']; subst. simpl.
    destruct i as [|i]; simpl in Hk, Hv.
    + injection Hk as ->. injection Hv as ->. rewrite String.eqb_refl. reflexivity.
    + destruct (String.eqb k k0) eqn:E.
      * apply String.eqb_eq in E. subst k0. exfalso. apply Hnotin.
        eapply nth_error_In, Hk.
      * eapply IH; eassumption.
Qed.

Lemma sidra_records_rows (header : item) (rows : list item) :
  rows <> [] ->
  sidra_records (Items (header :: rows)) = Ok (map (record header) rows).
Proof.
  intros Hne. destruct rows as [|r rows]; [congruence|]. reflexivity.
Qed.

(** X12. For an answer made of arrays, with distinct header entries and at
    least one row, there is one record per row, and the record of a row
    maps the header entry at each position to the row's element at that
    position. *)
Theorem sidra_records_arrays (h : list string) (rows : list (list string)) :
  NoDup h -> rows <> [] ->
  exists records,
    sidra_records (Items (Arr h :: map Arr rows)) = Ok records
    /\ length records = length rows
    /\ forall j r, nth_error rows j = Some r ->
         exists d, nth_error records j = Some d
           /\ forall i k v, nth_error h i = Some k -> nth_error r i = Some v ->
                dict_get k d = Some v.
Proof.
  intros Hnd Hne. eexists. split; [apply sidra_records_rows|].
  - destruct rows; [congruence | discriminate].
  - split; [rewrite !length_map; reflexivity|].
    intros j r Hj. exists (record (Arr h) (Arr r)). split.
    + rewrite map_map, nth_error_map, Hj. reflexivity.
    + intros i k v Hk Hv. rewrite record_distinct_header by exact Hnd.
      simpl. eapply dict_get_combine; eassumption.
Qed.

Lemma combine_self (l : list string) : combine l l = map (fun k => (k, k)) l.
Proof. induction l as [|k l IH]; simpl; [|rewrite IH]; reflexivity. Qed.

(** X13. For an answer made of objects that all carry the keys of the
    header object, every record maps each key to the key itself: the
    member values of the rows do not reach the records. *)
Theorem sidra_records_objects
  (header : list (string * string)) (rows : list (list (string * string))) :
  NoDup (map fst header) -> rows <> [] ->
  (forall r, In r rows -> map fst r = map fst header) ->
  sidra_records (Items (Obj header :: map Obj rows))
  = Ok (repeat (map (fun k => (k, k)) (map fst header)) (length rows)).
Proof.
  intros Hnd Hne Hkeys. rewrite sidra_records_rows.
  - f_equal. rewrite map_map.
    clear Hne. induction rows as [|r rows IH]; [reflexivity|]. simpl.
    rewrite IH by (intros r' Hr'; apply Hkeys; right; exact Hr'). f_equal.
    rewrite record_distinct_header by exact Hnd. simpl.
    rewrite (Hkeys r (or_introl eq_refl)). apply combine_self.
  - destruct rows; [congruence | discriminate].
Qed.

Lemma dict_get_set (k k' v : string) (d : dict) :
  dict_get k (dict_set k' v d)
  = if String.eqb k k' then Some v else dict_get k d.
Proof.
  induction d as [|[k0 v0] d IH]; simpl.
  - destruct (String.eqb k k'); reflexivity.
  - destruct (String.eqb k' k0) eqn:E; simpl.
    + apply String.eqb_eq in E. subst k0.
      destruct (String.eqb k k'); reflexivity.
    + destruct (String.eqb k k0) eqn:E0.
      * apply String.eqb_eq in E0. subst k0.
        rewrite String.eqb_sym, E. reflexivity.
      * exact IH.
Qed.

Lemma dict_get_snoc (k : string) (l : dict) (p : string * string) :
  dict_get k (l ++ [p])
  = match dict_get k l with
    | Some v => Some v
    | None => if String.eqb k (fst p) then Some (snd p) else None
    end.
Proof.
  induction l as [|[k0 v0] l IH]; simpl.
  - destruct p as [k' v']. reflexivity.
  - destruct (String.eqb k k0); [reflexivity | exact IH].
Qed.

Lemma dict_get_fold (k : string) (pairs : list (string * string)) (d : dict) :
  dict_get k (fold_left (fun d kv => dict_set (fst kv) (snd kv) d) pairs d)
  = match dict_get k (rev pairs) with
    | Some v => Some v
    | None => dict_get k d
    end.
Proof.
  revert d. induction pairs as [|p pairs IH]; intros d; [reflexivity|].
  simpl. rewrite IH, dict_get_snoc, dict_get_set.
  destruct (dict_get k (rev pairs)); [reflexivity|].
  destruct (String.eqb k (fst p)); reflexivity.
Qed.

(** X14. Looking a key up in [dict(zip(header, row))] gives the value
    paired with its last occurrence among the zipped pairs. *)
Theorem record_last_wins (header row : item) (k : string) :
  dict_get k (record header row)
  = dict_get k (rev (combine (iter header) (iter row))).
Proof.
  unfold record, dict_of_pairs. rewrite dict_get_fold.
  destruct (dict_get k (rev (combine (iter header) (iter row)))); reflexivity.
Qed.

(** ** The search for a table *)

Lemma try_table_qualifies get to_csv min_rows (k : nat) (t : Z) (records : list dict) :
  try_table get to_csv min_rows k t = Some records
  <-> qualifies get to_csv min_rows k t records.
Proof.
  unfold try_table, qualifies. split.
  - destruct (get k t) as [|[|l]]; try discriminate.
    destruct l as [|header [|r rows]]; try discriminate.
    cbn [length Nat.ltb Nat.leb].
    destruct (Z.geb _ min_rows) eqn:E; [|discriminate].
    destruct (to_csv k t (map (record header) (r :: rows))) eqn:Ew; [|discriminate].
    intros H. injection H as <-.
    exists header, (r :: rows). split; [reflexivity|]. split; [discriminate|].
    split; [apply Z.geb_le in E; exact E|]. split; [reflexivity | exact Ew].
  - intros [header [rows [-> [Hne [Hmin [-> Hw]]]]]].
    destruct rows as [|r rows]; [congruence|].
    cbn [length Nat.ltb Nat.leb].
    apply Z.geb_le in Hmin. cbn [length] in Hmin. rewrite Hmin, Hw. reflexivity.
Qed.

Lemma discover_from_spec get to_csv min_rows (candidates : list Z) (k : nat) :
  match discover_from get to_csv min_rows k candidates with
  | inr (t, records) =>
      exists pre post,
        candidates = pre ++ t :: post
        /\ qualifies get to_csv min_rows (k + length pre) t records
        /\ forall i c, nth_error pre i = Some c ->
             forall r, ~ qualifies get to_csv min_rows (k + i) c r
  | inl RuntimeError =>
      forall i c, nth_error candidates i = Some c ->
        forall r, ~ qualifies get to_csv min_rows (k + i) c r
  end.
Proof.
  revert k. induction candidates as [|t candidates IH]; intros k; simpl.
  - intros i c Hi. destruct i; discriminate.
  - destruct (try_table get to_csv min_rows k t) as [records|] eqn:E.
    + exists [], candidates. split; [reflexivity|]. simpl.
      rewrite Nat.add_0_r. split; [apply try_table_qualifies, E|].
      intros i c Hi. destruct i; discriminate.
    + assert (Hno : forall r, ~ qualifies get to_csv min_rows k t r).
      { intros r Hr. apply try_table_qualifies in Hr. congruence. }
      specialize (IH (S k)).
      destruct (discover_from get to_csv min_rows (S k) candidates)
        as [[]|[t' records]].
      * intros [|i] c Hi; simpl in Hi.
        -- injection Hi as <-. rewrite Nat.add_0_r. exact Hno.
        -- replace (k + S i)%nat with (S k + i)%nat by lia. apply IH, Hi.
      * destruct IH as [pre [post [-> [Hq Hpre]]]].
        exists (t :: pre), post. split; [reflexivity|]. simpl.
        replace (k + S (length pre))%nat with (S k + length pre)%nat by lia.
        split; [exact Hq|].
        intros [|i] c Hi; simpl in Hi.
        -- injection Hi as <-. rewrite Nat.add_0_r. exact Hno.
        -- replace (k + S i)%nat with (S k + i)%nat by lia. apply Hpre, Hi.
Qed.

(** X15. [discover_and_fetch_sidra_population] returns the first candidate
    whose answer qualifies and whose CSV is written, with the records
    built from that answer; every earlier candidate was skipped, for an
    exception of the request, an unsuitable answer or a failed write.  It
    raises RuntimeError exactly when no candidate qualifies and is
    written. *)
Theorem discover_first_qualifying get to_csv min_rows (candidates : list Z) :
  match discover_and_fetch_sidra_population get to_csv min_rows candidates with
  | inr (t, records) =>
      exists pre post,
        candidates = pre ++ t :: post
        /\ qualifies get to_csv min_rows (length pre) t records
        /\ forall i c, nth_error pre i = Some c ->
             forall r, ~ qualifies get to_csv min_rows i c r
  | inl RuntimeError =>
      forall i c, nth_error candidates i = Some c ->
        forall r, ~ qualifies get to_csv min_rows i c r
  end.
Proof.
  unfold discover_and_fetch_sidra_population.
  apply (discover_from_spec get to_csv min_rows candidates 0).
Qed.

Import NormalizeSidra.

(** ** The choice of the columns *)

Lemma max_from_in {K : Type} (ltb : K -> K -> bool) (key : string -> K)
  (best : string) (l : list string) :
  In (max_from ltb key best l) (best :: l).
Proof.
  revert best. induction l as [|c l IH]; intros best; simpl; [auto|].
  destruct (IH (if ltb (key best) (key c) then c else best)) as [H|H].
  - destruct (ltb (key best) (key c)); auto.
  - auto.
Qed.

Lemma py_max_in {K : Type} (ltb : K -> K -> bool) (key : string -> K)
  (l : list string) (c : string) :
  py_max ltb key l = Ok c -> In c l.
Proof.
  destruct l as [|c0 l]; simpl; [discriminate|].
  intros H. injection H as <-. apply max_from_in.
Qed.

Lemma py_max_nonempty {K : Type} (ltb : K -> K -> bool) (key : string -> K)
  (l : list string) :
  l <> [] -> exists c, py_max ltb key l = Ok c.
Proof. destruct l; [congruence|]. intros _. simpl. eauto. Qed.

Lemma filter_not_eq_in (x c : string) (l : list string) :
  In c (filter (fun c => negb (String.eqb c x)) l) <-> In c l /\ c <> x.
Proof.
  rewrite filter_In. split; intros [Hin H]; split; try exact Hin.
  - intros ->. rewrite String.eqb_refl in H. discriminate.
  - destruct (String.eqb c x) eqn:E; [apply String.eqb_eq in E; contradiction|].
    reflexivity.
Qed.

Lemma filter_not_eq_absent (x : string) (l : list string) :
  ~ In x l -> filter (fun c => negb (String.eqb c x)) l = l.
Proof.
  induction l as [|c l IH]; intros H; simpl; [reflexivity|].
  destruct (String.eqb c x) eqn:E.
  - apply String.eqb_eq in E. subst c. exfalso. apply H. left. reflexivity.
  - simpl. rewrite IH; [reflexivity|]. intros Hin. apply H. right. exact Hin.
Qed.

Lemma filter_not_eq_length (x : string) (l : list string) :
  NoDup l -> In x l ->
  S (length (filter (fun c => negb (String.eqb c x)) l)) = length l.
Proof.
  induction l as [|c l IH]; intros Hnd Hin; [destruct Hin|].
  inversion Hnd as [|? ? Hnotin Hnd']; subst. simpl.
  destruct (String.eqb c x) eqn:E.
  - apply String.eqb_eq in E. subst c. simpl.
    rewrite filter_not_eq_absent by exact Hnotin. reflexivity.
  - apply String.eqb_neq in E. destruct Hin as [H|Hin]; [contradiction|].
    simpl. rewrite (IH Hnd' Hin). reflexivity.
Qed.

Lemma filter_not_two (x y : string) (l : list string) :
  filter (fun c => negb (String.eqb c x || String.eqb c y)) l
  = filter (fun c => negb (String.eqb c y))
      (filter (fun c => negb (String.eqb c x)) l).
Proof.
  induction l as [|c l IH]; [reflexivity|]. simpl.
  destruct (String.eqb c x); simpl; [exact IH|].
  destruct (String.eqb c y); simpl; [exact IH | rewrite IH; reflexivity].
Qed.

Section ColumnChoice.

Variable code_like : string -> bool.
Variable int_count : string -> nat.
Variable float_count : string -> nat.
Variable textual_score : string -> R.

Lemma choose_code_col_in (cols : list string) (c : string) :
  choose_code_col code_like int_count cols = Ok c -> In c cols.
Proof.
  unfold choose_code_col. destruct (find code_like cols) as [c0|] eqn:E.
  - intros H. injection H as <-. apply find_some in E. tauto.
  - apply py_max_in.
Qed.

Lemma choose_code_col_nonempty (cols : list string) :
  cols <> [] -> exists c, choose_code_col code_like int_count cols = Ok c.
Proof.
  intros Hne. unfold choose_code_col.
  destruct (find code_like cols); [eauto | apply py_max_nonempty, Hne].
Qed.

(** X16. On a table with at least three columns of distinct names the
    choice succeeds, and the code, name and value columns are three
    different columns of the table. *)
Theorem choose_columns_distinct (cols : list string) :
  NoDup cols -> (3 <= length cols)%nat ->
  exists code name value,
    choose_columns code_like int_count float_count textual_score cols
    = Ok (Some (code, name, value))
    /\ In code cols /\ In name cols /\ In value cols
    /\ code <> value /\ name <> code /\ name <> value.
Proof.
  intros Hnd Hlen.
  assert (Hne : cols <> []) by (intros ->; simpl in Hlen; lia).
  destruct (choose_code_col_nonempty cols Hne) as [code Hcode].
  pose proof (choose_code_col_in cols code Hcode) as Hcin.
  pose proof (filter_not_eq_length code cols Hnd Hcin) as Hl1.
  set (vals := filter (fun c => negb (String.eqb c code)) cols) in *.
  assert (Hvne : vals <> []) by (intros E; rewrite E in Hl1; simpl in Hl1; lia).
  destruct (py_max_nonempty Nat.ltb float_count vals Hvne) as [value Hvalue].
  pose proof (py_max_in _ _ _ _ Hvalue) as Hvin.
  assert (Hvnd : NoDup vals) by (apply NoDup_filter, Hnd).
  pose proof (filter_not_eq_length value vals Hvnd Hvin) as Hl2.
  apply filter_not_eq_in in Hvin as [Hvcols Hvc].
  set (names := filter (fun c => negb (String.eqb c value)) vals) in *.
  assert (Hnne : names <> []) by (intros E; rewrite E in Hl2; simpl in Hl2; lia).
  destruct (py_max_nonempty Rltb textual_score names Hnne) as [name Hname].
  pose proof (py_max_in _ _ _ _ Hname) as Hnin.
  apply filter_not_eq_in in Hnin as [Hnin Hnv].
  apply filter_not_eq_in in Hnin as [Hncols Hnc].
  exists code, name, value. split.
  - unfold choose_columns. rewrite Hcode. simpl. fold vals. rewrite Hvalue. simpl.
    rewrite filter_not_two. fold vals. fold names.
    destruct names as [|n0 names0] eqn:En; [congruence|].
    rewrite Hname. reflexivity.
  - repeat split; auto.
Qed.

(** X17. With at most one column the choice raises ValueError ([max] of
    an empty list); with exactly two columns no name column is left and
    the selection fails, so that [normalize] returns False. *)
Theorem choose_columns_too_few (cols : list string) :
  ((length cols <= 1)%nat ->
   choose_columns code_like int_count float_count textual_score cols
   = Raise ValueError)
  /\ (NoDup cols -> length cols = 2%nat ->
      choose_columns code_like int_count float_count textual_score cols = Ok None).
Proof.
  split.
  - intros Hlen. destruct cols as [|a [|b cols]]; [| |simpl in Hlen; lia].
    + reflexivity.
    + assert (Hcode : choose_code_col code_like int_count [a] = Ok a).
      { unfold choose_code_col. simpl. destruct (code_like a); reflexivity. }
      unfold choose_columns. rewrite Hcode. simpl.
      rewrite String.eqb_refl. reflexivity.
  - intros Hnd Hlen.
    assert (Hne : cols <> []) by (intros ->; discriminate).
    destruct (choose_code_col_nonempty cols Hne) as [code Hcode].
    pose proof (choose_code_col_in cols code Hcode) as Hcin.
    pose proof (filter_not_eq_length code cols Hnd Hcin) as Hl1.
    set (vals := filter (fun c => negb (String.eqb c code)) cols) in *.
    destruct vals as [|value [|v vals0]] eqn:Ev; simpl in Hl1; try lia.
    assert (Hvin : In value vals) by (rewrite Ev; left; reflexivity).
    assert (Hvnd : NoDup vals) by (apply NoDup_filter, Hnd).
    unfold choose_columns. rewrite Hcode. simpl. fold vals. rewrite Ev. simpl.
    rewrite filter_not_two. fold vals. rewrite Ev. simpl.
    rewrite String.eqb_refl. reflexivity.
Qed.

End ColumnChoice.

(** ** One feature in other units *)

Lemma filled_changed_units (a b : R) (c1 c2 : list (option R)) :
  changed_units a b c1 c2 -> filled c2 = map (fun t => a * t + b) (filled c1).
Proof.
  intros [-> Hb]. unfold filled. rewrite !map_map.
  apply map_ext_in. intros [x|] Hin; simpl; [reflexivity|].
  destruct Hb as [->|Hall]; [ring|].
  rewrite Forall_forall in Hall. exfalso. apply (Hall None Hin). reflexivity.
Qed.

(** The scores of a single feature are ordered as the filled values
    are. *)
Lemma single_feature_order (x : list R) (idx : list Z) (s : Series) :
  length x = length idx -> normalize (standardize x) idx = Ok s ->
  forall i j, (i < length x)%nat -> (j < length x)%nat ->
    (nth i (values s) 0 < nth j (values s) 0 <-> nth i x 0 < nth j x 0).
Proof.
  intros Hlen Hs.
  assert (Hz : length (standardize x) = length idx)
    by (rewrite standardize_length; exact Hlen).
  assert (Hfwd : forall i j, (i < length x)%nat -> (j < length x)%nat ->
            (nth i x 0 = nth j x 0 -> nth i (values s) 0 = nth j (values s) 0)
            /\ (nth i x 0 < nth j x 0 -> nth i (values s) 0 < nth j (values s) 0)).
  { intros i j Hi Hj.
    destruct (normalize_order _ _ _ Hz Hs i j) as [Htie Hstrict];
      [rewrite standardize_length; exact Hi | rewrite standardize_length; exact Hj |].
    split; intros H.
    - apply Htie, standardize_tie; assumption.
    - apply Hstrict, standardize_strict; assumption. }
  intros i j Hi Hj. split; [|apply (Hfwd i j Hi Hj)].
  intros Hlt. destruct (Rtotal_order (nth i x 0) (nth j x 0)) as [H|[H|H]]; [exact H| |].
  - apply (Hfwd i j Hi Hj) in H. lra.
  - apply (Hfwd j i Hj Hi) in H. lra.
Qed.

Lemma single_feature_result svd_axis (df : DataFrame) features cells :
  well_formed df -> selects df (resolve_features df features) [cells] ->
  index df <> [] ->
  length (filled cells) = length (index df)
  /\ exists s, compute_index svd_axis df features = Ok s
               /\ normalize (standardize (filled cells)) (index df) = Ok s
               /\ length (values s) = length (index df).
Proof.
  intros Hwf Hsel Hrows.
  assert (Hne : [cells] <> []) by discriminate.
  pose proof (scores_of_length svd_axis df _ _ Hwf Hsel Hne) as Hlen.
  rewrite scores_of_single, standardize_length in Hlen.
  split; [exact Hlen|].
  destruct (normalize_total (standardize (filled cells)) (index df)) as [s Hs].
  - intros E. apply (f_equal (@length R)) in E.
    rewrite standardize_length, Hlen in E. destruct (index df); [congruence | discriminate].
  - rewrite standardize_length. exact Hlen.
  - exists s. rewrite (compute_index_selected svd_axis df features _ Hwf Hsel Hne Hrows).
    rewrite scores_of_single. split; [exact Hs|]. split; [exact Hs|].
    apply (normalize_shape _ _ _ Hs).
Qed.

(** X4. With one numeric feature, counting the column in other units (a
    positive factor, and a shift when no cell is missing) leaves the
    ranking of the rows unchanged. *)
Theorem compute_index_units_rank svd_axis
  (df1 df2 : DataFrame) f1 f2 c1 c2 (a b : R) :
  well_formed df1 -> well_formed df2 -> index df1 = index df2 ->
  index df1 <> [] ->
  selects df1 (resolve_features df1 f1) [c1] ->
  selects df2 (resolve_features df2 f2) [c2] ->
  changed_units a b c1 c2 -> 0 < a ->
  exists s1 s2,
    compute_index svd_axis df1 f1 = Ok s1
    /\ compute_index svd_axis df2 f2 = Ok s2
    /\ same_rank (values s1) (values s2).
Proof.
  intros Hwf1 Hwf2 Hidx Hrows Hs1 Hs2 Hu Ha.
  destruct (single_feature_result svd_axis df1 f1 c1 Hwf1 Hs1 Hrows)
    as [Hl1 [s1 [Hc1 [Hn1 Hv1]]]].
  destruct (single_feature_result svd_axis df2 f2 c2 Hwf2 Hs2)
    as [Hl2 [s2 [Hc2 [Hn2 Hv2]]]]; [rewrite <- Hidx; exact Hrows|].
  exists s1, s2. split; [exact Hc1|]. split; [exact Hc2|].
  split; [congruence|].
  intros i j Hi Hj. rewrite Hv1, <- Hl1 in Hi, Hj.
  rewrite (single_feature_order _ _ _ Hl1 Hn1 i j Hi Hj).
  assert (Hl12 : length (filled c2) = length (filled c1)) by congruence.
  rewrite (single_feature_order _ _ _ Hl2 Hn2 i j) by (rewrite Hl12; assumption).
  rewrite (filled_changed_units a b c1 c2 Hu).
  rewrite !(nth_map_lt (fun t => a * t + b)) by assumption.
  split; intros H; nra.
Qed.

(** X5. With one numeric feature, multiplying the column by a negative
    factor (and shifting it when no cell is missing) reverses the ranking
    of the rows. *)
Theorem compute_index_units_reversed svd_axis
  (df1 df2 : DataFrame) f1 f2 c1 c2 (a b : R) :
  well_formed df1 -> well_formed df2 -> index df1 = index df2 ->
  index df1 <> [] ->
  selects df1 (resolve_features df1 f1) [c1] ->
  selects df2 (resolve_features df2 f2) [c2] ->
  changed_units a b c1 c2 -> a < 0 ->
  exists s1 s2,
    compute_index svd_axis df1 f1 = Ok s1
    /\ compute_index svd_axis df2 f2 = Ok s2
    /\ reverse_rank (values s1) (values s2).
Proof.
  intros Hwf1 Hwf2 Hidx Hrows Hs1 Hs2 Hu Ha.
  destruct (single_feature_result svd_axis df1 f1 c1 Hwf1 Hs1 Hrows)
    as [Hl1 [s1 [Hc1 [Hn1 Hv1]]]].
  destruct (single_feature_result svd_axis df2 f2 c2 Hwf2 Hs2)
    as [Hl2 [s2 [Hc2 [Hn2 Hv2]]]]; [rewrite <- Hidx; exact Hrows|].
  exists s1, s2. split; [exact Hc1|]. split; [exact Hc2|].
  split; [congruence|].
  intros i j Hi Hj. rewrite Hv1, <- Hl1 in Hi, Hj.
  rewrite (single_feature_order _ _ _ Hl1 Hn1 i j Hi Hj).
  assert (Hl12 : length (filled c2) = length (filled c1)) by congruence.
  rewrite (single_feature_order _ _ _ Hl2 Hn2 j i) by (rewrite Hl12; assumption).
  rewrite (filled_changed_units a b c1 c2 Hu).
  rewrite !(nth_map_lt (fun t => a * t + b)) by assumption.
  split; intros H; nra.
Qed.

(** ** Instances of the further properties *)

Lemma scenario_ibge_well_formed : well_formed scenario_ibge.
Proof.
  split; simpl.
  - repeat constructor.
  - repeat constructor; simpl; [|tauto]. intros [H|[]]. discriminate H.
Qed.

Lemma scenario_ibge_fresh :
  ~ In "municipio"%string (map fst (columns scenario_ibge))
  /\ ~ In "municipio_id"%string (map fst (columns scenario_ibge)).
Proof. split; simpl; intros [H|[H|[]]]; discriminate H. Qed.

Lemma compute_index_range_scenario_A :
  well_formed scenario_A
  /\ exists s, compute_index axis_backwards scenario_A None = Ok s
               /\ Forall (fun y => 0 <= y <= 1) (values s).
Proof.
  split; [exact scenario_A_well_formed|].
  destruct (compute_index_range axis_backwards scenario_A None) as [_ H].
  apply (H _ scenario_A_well_formed scenario_A_selects). discriminate.
Defined.

Lemma compute_index_missing_column_scenario_A :
  lookup "renda" (columns scenario_A) = None
  /\ compute_index axis_backwards scenario_A (Some ["populacao"%string; "renda"%string])
     = Raise KeyError.
Proof.
  split; [reflexivity|].
  apply (compute_index_missing_column axis_backwards scenario_A _ "renda"%string).
  - right. left. reflexivity.
  - reflexivity.
Defined.

Lemma compute_index_ignores_object_columns_scenario_ibge :
  well_formed scenario_ibge
  /\ compute_index axis_backwards (drop_object_columns scenario_ibge) None
     = compute_index axis_backwards scenario_ibge None.
Proof.
  split; [exact scenario_ibge_well_formed|].
  apply (compute_index_ignores_object_columns axis_backwards scenario_ibge
           scenario_ibge_well_formed).
Defined.

Lemma compute_index_after_normalize_ibge_scenario :
  well_formed scenario_ibge
  /\ well_formed (normalize_ibge_municipios scenario_ibge)
  /\ compute_index axis_backwards (normalize_ibge_municipios scenario_ibge) None
     = compute_index axis_backwards scenario_ibge None.
Proof.
  split; [exact scenario_ibge_well_formed|].
  apply (compute_index_after_normalize_ibge axis_backwards scenario_ibge
           scenario_ibge_well_formed
           (proj1 scenario_ibge_fresh) (proj2 scenario_ibge_fresh)).
Defined.

Lemma main_adds_index_scenario_A :
  well_formed scenario_A
  /\ exists df' scores,
       main axis_backwards scenario_A = Ok df'
       /\ lookup "vuln_overall" (columns df') = Some (Numeric (map Some scores))
       /\ length scores = 3%nat
       /\ lookup "populacao" (columns df') = lookup "populacao" (columns scenario_A).
Proof.
  split; [exact scenario_A_well_formed|].
  destruct (main_adds_index axis_backwards scenario_A scenario_A_well_formed)
    as [df' [scores [H1 [_ [_ [H4 [H5 [_ H7]]]]]]]]; [left; discriminate|].
  exists df', scores. repeat split; try assumption.
  apply H7. discriminate.
Defined.

Lemma sidra_records_arrays_example :
  NoDup ["D1C"%string; "D1N"%string; "V"%string]
  /\ exists records,
       sidra_records
         (Items [Arr ["D1C"%string; "D1N"%string; "V"%string];
                 Arr ["3550308"%string; "Sao Paulo - SP"%string; "11451245"%string]])
       = Ok records
       /\ length records = 1%nat.
Proof.
  assert (Hnd : NoDup ["D1C"%string; "D1N"%string; "V"%string]).
  { repeat constructor; simpl; intuition discriminate. }
  split; [exact Hnd|].
  destruct (sidra_records_arrays ["D1C"%string; "D1N"%string; "V"%string]
              [["3550308"%string; "Sao Paulo - SP"%string; "11451245"%string]] Hnd)
    as [records [H1 [H2 _]]]; [discriminate|].
  exists records. split; [exact H1 | exact H2].
Defined.

Lemma sidra_records_objects_example :
  sidra_records
    (Items [Obj [("D1C"%string, "Municipio (Codigo)"%string); ("V"%string, "Valor"%string)];
            Obj [("D1C"%string, "3550308"%string); ("V"%string, "11451245"%string)]])
  = Ok [[("D1C"%string, "D1C"%string); ("V"%string, "V"%string)]].
Proof.
  apply (sidra_records_objects
           [("D1C"%string, "Municipio (Codigo)"%string); ("V"%string, "Valor"%string)]
           [[("D1C"%string, "3550308"%string); ("V"%string, "11451245"%string)]]).
  - repeat constructor; simpl; intuition discriminate.
  - discriminate.
  - intros r [<-|[]]. reflexivity.
Defined.

Lemma choose_columns_distinct_example :
  NoDup ["D1C"%string; "D1N"%string; "V"%string]
  /\ exists code name value,
       choose_columns (fun c => String.eqb c "D1C") (fun _ => O) (fun _ => O)
         (fun _ => 0) ["D1C"%string; "D1N"%string; "V"%string]
       = Ok (Some (code, name, value))
       /\ code <> value /\ name <> code /\ name <> value.
Proof.
  assert (Hnd : NoDup ["D1C"%string; "D1N"%string; "V"%string]).
  { repeat constructor; simpl; intuition discriminate. }
  split; [exact Hnd|].
  destruct (choose_columns_distinct (fun c => String.eqb c "D1C") (fun _ => O)
              (fun _ => O) (fun _ => 0) ["D1C"%string; "D1N"%string; "V"%string] Hnd)
    as [code [name [value [H [_ [_ [_ [H1 [H2 H3]]]]]]]]]; [simpl; lia|].
  exists code, name, value. auto.
Defined.

Lemma choose_columns_too_few_example :
  choose_columns (fun c => String.eqb c "D1C") (fun _ => O) (fun _ => O)
    (fun _ => 0) ["D1C"%string; "V"%string]
  = Ok None.
Proof.
  apply (choose_columns_too_few (fun c => String.eqb c "D1C") (fun _ => O)
           (fun _ => O) (fun _ => 0) ["D1C"%string; "V"%string]).
  - repeat constructor; simpl; intuition discriminate.
  - reflexivity.
Defined.

Lemma scenario_gap_tables :
  well_formed scenario_gap /\ well_formed scenario_gap_scaled
  /\ well_formed scenario_gap_negated.
Proof.
  repeat split; simpl; repeat constructor; simpl; tauto.
Qed.

Lemma scenario_gap_selects :
  selects scenario_gap (resolve_features scenario_gap None)
    [[Some 10; None; Some 30]]
  /\ selects scenario_gap_scaled (resolve_features scenario_gap_scaled None)
       [[Some 10000; None; Some 30000]]
  /\ selects scenario_gap_negated (resolve_features scenario_gap_negated None)
       [[Some (-10); None; Some (-30)]].
Proof. repeat split; repeat constructor. Qed.

Lemma scenario_gap_units :
  changed_units 1000 0 [Some 10; None; Some 30] [Some 10000; None; Some 30000]
  /\ changed_units (-1) 0 [Some 10; None; Some 30] [Some (-10); None; Some (-30)].
Proof.
  split; (split; [|left; reflexivity]); simpl.
  - replace (1000 * 10 + 0) with 10000 by lra.
    replace (1000 * 30 + 0) with 30000 by lra. reflexivity.
  - replace (-1 * 10 + 0) with (-10) by lra.
    replace (-1 * 30 + 0) with (-30) by lra. reflexivity.
Qed.

Lemma compute_index_units_rank_scenario_gap :
  well_formed scenario_gap /\ well_formed scenario_gap_scaled
  /\ exists s1 s2,
       compute_index axis_backwards scenario_gap None = Ok s1
       /\ compute_index axis_backwards scenario_gap_scaled None = Ok s2
       /\ same_rank (values s1) (values s2).
Proof.
  destruct scenario_gap_tables as [H1 [H2 _]].
  destruct scenario_gap_selects as [S1 [S2 _]].
  split; [exact H1|]. split; [exact H2|].
  apply (compute_index_units_rank axis_backwards scenario_gap scenario_gap_scaled
           None None [Some 10; None; Some 30] [Some 10000; None; Some 30000]
           1000 0 H1 H2 eq_refl);
    [discriminate | exact S1 | exact S2 | exact (proj1 scenario_gap_units) | lra].
Defined.

Lemma compute_index_units_reversed_scenario_gap :
  well_formed scenario_gap /\ well_formed scenario_gap_negated
  /\ exists s1 s2,
       compute_index axis_backwards scenario_gap None = Ok s1
       /\ compute_index axis_backwards scenario_gap_negated None = Ok s2
       /\ reverse_rank (values s1) (values s2).
Proof.
  destruct scenario_gap_tables as [H1 [_ H3]].
  destruct scenario_gap_selects as [S1 [_ S3]].
  split; [exact H1|]. split; [exact H3|].
  apply (compute_index_units_reversed axis_backwards scenario_gap scenario_gap_negated
           None None [Some 10; None; Some 30] [Some (-10); None; Some (-30)]
           (-1) 0 H1 H3 eq_refl);
    [discriminate | exact S1 | exact S3 | exact (proj2 scenario_gap_units) | lra].
Defined.
